(** * Catchment overlap analysis of the outlet map (components/OutletMap.js)

    The component receives the outlet records fetched from the backend,
    drops the records without usable coordinates, and flags every outlet
    whose 5 km catchment circle intersects the circle of another outlet.

    JavaScript numbers are IEEE 754 binary64 values; they are modelled by
    Rocq's primitive floats, whose operations are specified bit for bit by
    [SpecFloat].  [Math.sin], [Math.cos] and [Math.atan2] are left to the
    implementation by ECMAScript ("implementation-approximated"), so the
    binary64 model takes them as parameters.  The body of
    [calculateDistance] is written over an interface of the arithmetic it
    uses, and that interface is instantiated at binary64 with the host's
    functions.

    The set [intersecting] is only ever asked for membership and size, so
    it is a [gset] of ids. *)

From Stdlib Require Import Reals Lra.
From Stdlib Require Import ZArith Floats.
From stdpp Require Import base decidable numbers strings pretty list sets gmap.

Close Scope R_scope.

(** A decimal literal denotes the nearest binary64 value, here as in
    JavaScript. *)
Set Warnings "-inexact-float,-clear-no-such-hyp".

(** ** JavaScript values held by the coordinate fields *)

(** A coordinate comes out of [JSON.parse]: a number, [null], or nothing at
    all when the key is absent.  (The page calls [outlet.latitude.toFixed],
    so other types do not occur.) *)
Inductive JsValue : Type :=
  | JsUndefined
  | JsNull
  | JsNumber (n : float).

(** [ToBoolean]: [undefined], [null], [+0], [-0] and [NaN] are falsy. *)
Definition ToBoolean (v : JsValue) : bool :=
  match v with
  | JsUndefined | JsNull => false
  | JsNumber n => negb (PrimFloat.is_zero n || PrimFloat.is_nan n)
  end.

(** [ToNumber]: [undefined] becomes [NaN], [null] becomes [+0]. *)
Definition ToNumber (v : JsValue) : float :=
  match v with
  | JsUndefined => PrimFloat.nan
  | JsNull => PrimFloat.zero
  | JsNumber n => n
  end.

(** The global [isNaN(v)] is [ToNumber(v)] is [NaN]. *)
Definition isNaN (v : JsValue) : bool := PrimFloat.is_nan (ToNumber v).

(** ** Outlet records *)

Record Outlet : Type := mkOutlet {
  id : Z;
  latitude : JsValue;
  longitude : JsValue;
  name : string;
  address : string;
  operating_hours : option string;
  telephone : option string;
  waze_link : option string
}.

(** Lines 56-59, the predicate given to [initialOutlets.filter]. *)
Definition validOutlet (outlet : Outlet) : bool :=
  ToBoolean (latitude outlet) && ToBoolean (longitude outlet) &&
  negb (isNaN (latitude outlet)) && negb (isNaN (longitude outlet)).

(** The state the effect of lines 54-75 writes. *)
Record MapState : Type := mkMapState {
  outlets : list Outlet;
  mapCenter : JsValue * JsValue;
  intersectingOutlets : gset Z
}.

(** ** The arithmetic used by [calculateDistance] *)

Class NumberOps (num : Type) : Type := {
  lit : Z -> num;
  n_add : num -> num -> num;
  n_sub : num -> num -> num;
  n_mul : num -> num -> num;
  n_div : num -> num -> num;
  Math_PI : num;
  Math_sin : num -> num;
  Math_cos : num -> num;
  Math_sqrt : num -> num;
  Math_atan2 : num -> num -> num
}.

Declare Scope num_scope.
Delimit Scope num_scope with num.
Notation "x + y" := (n_add x y) : num_scope.
Notation "x - y" := (n_sub x y) : num_scope.
Notation "x * y" := (n_mul x y) : num_scope.
Notation "x / y" := (n_div x y) : num_scope.

Section Haversine.
Context {num : Type} `{NumberOps num}.
Local Open Scope num_scope.

(** Lines 19-29: distance between two points, in kilometres. *)
Definition calculateDistance (lat1 lon1 lat2 lon2 : num) : num :=
  let R := lit 6371 in
  let dLat := (lat2 - lat1) * Math_PI / lit 180 in
  let dLon := (lon2 - lon1) * Math_PI / lit 180 in
  let a :=
    Math_sin (dLat / lit 2) * Math_sin (dLat / lit 2) +
    Math_cos (lat1 * Math_PI / lit 180) * Math_cos (lat2 * Math_PI / lit 180) *
    Math_sin (dLon / lit 2) * Math_sin (dLon / lit 2) in
  let c := lit 2 * Math_atan2 (Math_sqrt a) (Math_sqrt (lit 1 - a)) in
  R * c.

End Haversine.

(** ** Binary64: the arithmetic the program runs on *)

(** An integer literal of the source text denotes the nearest binary64
    value. *)
Definition float_of_Z (z : Z) : float :=
  SF2Prim (binary_normalize prec emax z 0 false).

(** [Math.PI] is the binary64 value nearest to pi. *)
Definition PI64 : float := 0x1.921fb54442d18p+1%float.

Definition binary64 (sin64 cos64 : float -> float)
    (atan2_64 : float -> float -> float) : NumberOps float :=
  {| lit := float_of_Z;
     n_add := PrimFloat.add;
     n_sub := PrimFloat.sub;
     n_mul := PrimFloat.mul;
     n_div := PrimFloat.div;
     Math_PI := PI64;
     Math_sin := sin64;
     Math_cos := cos64;
     Math_sqrt := PrimFloat.sqrt;
     Math_atan2 := atan2_64 |}.

(** ** The great-circle distance of the specification *)

(** The haversine formula as the specification writes it, over the real
    numbers, for coordinates in degrees on a sphere of radius 6371 km.
    The program computes in binary64, not here; the formula only says
    which number the specification names at a given pair of points. *)

(** The two-argument arctangent over the reals: the angle of the point
    [(x, y)], in the interval from -pi (excluded) to pi. *)
Definition atan2R (y x : R) : R :=
  if Rlt_dec 0 x then atan (y / x)
  else if Rlt_dec x 0 then
    if Rle_dec 0 y then (atan (y / x) + PI)%R else (atan (y / x) - PI)%R
  else if Rlt_dec 0 y then (PI / 2)%R
  else if Rlt_dec y 0 then (- (PI / 2))%R
  else 0%R.

Definition radians (degrees : R) : R := (degrees * PI / 180)%R.

Definition haversine_h (lat_a lon_a lat_b lon_b : R) : R :=
  let dlat := (radians lat_b - radians lat_a)%R in
  let dlon := (radians lon_b - radians lon_a)%R in
  ((sin (dlat / 2))² +
   cos (radians lat_a) * cos (radians lat_b) * (sin (dlon / 2))²)%R.

Definition haversine_atan2 (lat_a lon_a lat_b lon_b : R) : R :=
  let h := haversine_h lat_a lon_a lat_b lon_b in
  (2 * 6371 * atan2R (R_sqrt.sqrt h) (R_sqrt.sqrt (1 - h)))%R.

(** ** Notions used to state the properties *)

(** Two records that agree on the fields the analysis reads. *)
Definition sameIdAndCoordinates (a b : Outlet) : Prop :=
  id a = id b /\ latitude a = latitude b /\ longitude a = longitude b.

(** Eligibility in the words of the specification: both coordinates are
    present, finite, and within -90..90 and -180..180. *)
Definition inRange (lo hi : float) (v : JsValue) : bool :=
  match v with
  | JsNumber n => PrimFloat.is_finite n && (lo <=? n)%float && (n <=? hi)%float
  | JsUndefined | JsNull => false
  end.

Definition specEligible (outlet : Outlet) : bool :=
  inRange (-90) 90 (latitude outlet) && inRange (-180) 180 (longitude outlet).

(** The constant 2 of line 44 as [SpecFloat] sees it. *)
Definition SFtwo : spec_float := S754_finite false 4503599627370496 (-51).

(** ** A host for closed examples *)

(** The leading terms of the series of sine, cosine and arctangent; they
    are accurate to a few metres between outlets of one city, which is
    all the examples below need. *)
Definition smallAngleSin (x : float) : float := (x * (1 - x * x / 6))%float.
Definition smallAngleCos (x : float) : float := (1 - x * x / 2)%float.
Definition smallAngleAtan2 (y x : float) : float := (y / x)%float.

(** The points (8, -90) and (-8, 90) are almost opposite each other on
    the sphere; they send the sine to -8 degrees and to 90 degrees and
    the cosine to 8 and -8 degrees, out of reach of the series.  This
    host answers there with the correctly rounded sine and cosine
    (-0.13917310096006544, 1 and 0.9902680687415704) and with the series
    elsewhere. *)
Definition nearAntipodalSin (x : float) : float :=
  if (x =? 0x1.921fb54442d18p+0)%float then 1%float
  else if (x =? -0x1.1df46a2529d39p-3)%float then (-0x1.1d06c968d9e19p-3)%float
  else smallAngleSin x.
Definition nearAntipodalCos (x : float) : float :=
  if (abs x =? 0x1.1df46a2529d39p-3)%float then 0x1.fb046a930947ap-1%float
  else smallAngleCos x.

(** The outlets of the scenarios of the specification. *)
Definition outletA : Outlet :=
  mkOutlet 1 (JsNumber 3.1390) (JsNumber 101.6869)
    "Outlet A" "Jalan Ampang" None None None.
Definition outletB : Outlet :=
  mkOutlet 2 (JsNumber 3.2280) (JsNumber 101.7080)
    "Outlet B" "Jalan Genting Klang" (Some "24 Hours") None None.
Definition outletC : Outlet :=
  mkOutlet 3 (JsNumber 3.1480) (JsNumber 101.6960)
    "Outlet C" "Jalan Tun Razak" None (Some "03-0000 0000") None.
Definition outletNoLatitude : Outlet :=
  mkOutlet 4 JsNull (JsNumber 101.6869)
    "Outlet D" "Jalan Bukit Bintang" None None None.
Definition outletEquator : Outlet :=
  mkOutlet 5 (JsNumber 0) (JsNumber 109.3333)
    "Outlet E" "Jalan Khatulistiwa" None None None.
Definition outletEquatorNeighbour : Outlet :=
  mkOutlet 6 (JsNumber 0) (JsNumber 109.3400)
    "Outlet F" "Jalan Khatulistiwa" None None None.
Definition outletInfinite : Outlet :=
  mkOutlet 7 (JsNumber PrimFloat.infinity) (JsNumber 101.6869)
    "Outlet G" "Jalan Ampang" None None None.

Definition outletATwin : Outlet :=
  mkOutlet 8 (JsNumber 3.1390) (JsNumber 101.6869)
    "Outlet H" "Jalan Ampang" None None None.

Definition outletNorthWest : Outlet :=
  mkOutlet 10 (JsNumber 8) (JsNumber (-90))
    "Outlet J" "8 N 90 W" None None None.
Definition outletSouthEast : Outlet :=
  mkOutlet 11 (JsNumber (-8)) (JsNumber 90)
    "Outlet K" "8 S 90 E" None None None.

(** Outlet A again, with other descriptive fields. *)
Definition outletARenamed : Outlet :=
  mkOutlet 1 (JsNumber 3.1390) (JsNumber 101.6869)
    "Outlet A (drive-thru)" "Lot 12, Jalan Ampang" (Some "7am - 11pm")
    (Some "03-1111 1111") (Some "https://waze.com/ul?ll=3.139,101.6869").

(** The state before any outlet arrives: [MAP_CONFIG.DEFAULT_CENTER]. *)
Definition initialState : MapState :=
  {| outlets := [];
     mapCenter := (JsNumber 3.1390, JsNumber 101.6869);
     intersectingOutlets := ∅ |}.

(** Lines 14-16: the state of the first render, before the effect has
    run; [useState(initialOutlets)] takes the prop as it comes. *)
Definition stateAtMount (initialOutlets : list Outlet) : MapState :=
  {| outlets := initialOutlets;
     mapCenter := (JsNumber 3.1390, JsNumber 101.6869);
     intersectingOutlets := ∅ |}.

(** ** What the component draws (lines 77-204) *)

(** The view keeps what depends on the state: the notice or the layers,
    and per outlet the circle, the marker and its popup, with the texts
    of the badge and of the legend.  React keys, the tile layer, the zoom
    and the fixed labels are constants of the source and left out. *)

(** A string field is shown when it is truthy: present and not empty. *)
Definition truthyString (v : option string) : bool :=
  match v with
  | Some s => negb (String.eqb s "")
  | None => false
  end.

(** Lines 77-79: [hours || '8am - 12pm']. *)
Definition formatOperatingHours (hours : option string) : string :=
  match hours with
  | Some s => if String.eqb s "" then "8am - 12pm" else s
  | None => "8am - 12pm"
  end.

(** Lines 113-124: one circle per outlet. *)
Record CircleView : Type := mkCircleView {
  circleCenter : JsValue * JsValue;
  circleRadius : Z;
  circleColor : string;
  circleFillColor : string;
  circleFillOpacity : float;
  circleWeight : Z;
  circleOpacity : float
}.

(** Lines 134-173: the popup of a marker. *)
Record PopupView : Type := mkPopupView {
  popupName : string;
  popupOverlapBadge : bool;
  popupAddress : string;
  popupHours : string;
  popupPhone : option string;
  popupWaze : option string
}.

(** Lines 130-174: one marker per outlet. *)
Record MarkerView : Type := mkMarkerView {
  markerPosition : JsValue * JsValue;
  markerPopup : PopupView
}.

Inductive MapView : Type :=
  | NoOutletsNotice
  | OutletLayers (center : JsValue * JsValue)
      (circles : list CircleView) (markers : list MarkerView)
      (countBadge : string) (legendCount : string).

(** [intersectingOutlets.has(outlet.id)]. *)
Definition isIntersecting (st : MapState) (outlet : Outlet) : bool :=
  bool_decide (id outlet ∈ intersectingOutlets st).

Definition renderCircle (st : MapState) (outlet : Outlet) : CircleView :=
  {| circleCenter := (latitude outlet, longitude outlet);
     circleRadius := 5000;
     circleColor := if isIntersecting st outlet then "#ef4444" else "#3b82f6";
     circleFillColor := if isIntersecting st outlet then "#ef4444" else "#3b82f6";
     circleFillOpacity := 0.1;
     circleWeight := if isIntersecting st outlet then 3 else 2;
     circleOpacity := 0.6 |}.

Definition renderMarker (st : MapState) (outlet : Outlet) : MarkerView :=
  {| markerPosition := (latitude outlet, longitude outlet);
     markerPopup :=
       {| popupName := name outlet;
          popupOverlapBadge := isIntersecting st outlet;
          popupAddress := address outlet;
          popupHours := formatOperatingHours (operating_hours outlet);
          popupPhone :=
            if truthyString (telephone outlet) then telephone outlet else None;
          popupWaze :=
            if truthyString (waze_link outlet) then waze_link outlet else None |} |}.

(** [`${n} outlet${n !== 1 ? 's' : ''} ${what}`]. *)
Definition countText (n : nat) (what : string) : string :=
  pretty n +:+ " outlet" +:+ (if (n =? 1)%nat then "" else "s") +:+ " " +:+ what.

(** Lines 81-204: the notice when there is nothing to draw, the layers of
    the map otherwise. *)
Definition render (st : MapState) : MapView :=
  if (length (outlets st) =? 0)%nat then NoOutletsNotice
  else
    OutletLayers (mapCenter st)
      (renderCircle st <$> outlets st)
      (renderMarker st <$> outlets st)
      (countText (length (outlets st)) "found")
      (countText (size (intersectingOutlets st)) "with overlaps").

(** The circles drawn in red. *)
Definition redCircles (v : MapView) : list CircleView :=
  match v with
  | NoOutletsNotice => []
  | OutletLayers _ circles _ _ _ =>
      filter (fun c => circleColor c = "#ef4444") circles
  end.

(** A record whose latitude key is absent, for closed examples. *)
Definition outletUndefined : Outlet :=
  mkOutlet 9 JsUndefined (JsNumber 101.6869)
    "Outlet I" "Jalan Ampang" None None None.

(** ** The page that feeds the map (pages/index.js) and variables.js *)

Definition API_BASE_URL : string := "http://localhost:8000".
Definition API_ENDPOINTS_scrapeAndSave : string := "/save-outlets".
Definition API_ENDPOINTS_outlets : string := "/outlets".
Definition API_ENDPOINTS_deleteAllOutlets : string := "/outlets".
Definition API_ENDPOINTS_aiSearch : string := "/api/v1/search".

(** The body of a request before [JSON.stringify]. *)
Inductive RequestBody : Type :=
  | ScrapeBody (search_term : string) (overwrite_existing : bool)
  | AiSearchBody (query : string).

Record Request : Type := mkRequest {
  requestMethod : string;
  requestUrl : string;
  requestBody : option RequestBody
}.

(** The keys the page reads from a JSON body of the backend; a key that
    is absent reads as [undefined]. *)
Record JsonBody : Type := mkJsonBody {
  detail : option string;
  outletsKey : option (list Outlet);
  messageKey : option string;
  responseKey : option string
}.

(** What the two awaits of a request give: [response.json()] resolves or
    rejects, and so does [fetch] itself. *)
Inductive JsonOutcome : Type :=
  | JsonRejects (message : string)
  | JsonResolves (body : JsonBody).

Inductive FetchOutcome : Type :=
  | FetchRejects (message : string)
  | FetchResolves (ok : bool) (status : N) (json : JsonOutcome).

(** The state of the page. *)
Record PageState : Type := mkPageState {
  searchTerm : string;
  pageOutlets : option (list Outlet);
  isSearching : bool;
  isRescraping : bool;
  isFetchingOutlets : bool;
  error : option string;
  pageMapCenter : JsValue * JsValue;
  aiSearchQuery : string;
  isSearchingAI : bool;
  aiResponse : option string;
  searchError : option string
}.

(** What a handler does to the world, in the order it does it. *)
Inductive Effect : Type :=
  | Alert (text : option string)
  | Confirm (text : string)
  | Fetch (request : Request)
  | SetOutlets (v : option (list Outlet))
  | SetIsSearching (b : bool)
  | SetIsRescraping (b : bool)
  | SetIsFetchingOutlets (b : bool)
  | SetError (v : option string)
  | SetIsSearchingAI (b : bool)
  | SetAiResponse (v : option string)
  | SetSearchError (v : option string).

(** A handler either completes or throws an [Error] with a message. *)
Inductive Completion (A : Type) : Type :=
  | Normal (v : A)
  | Throw (message : string).
Arguments Normal {A} v.
Arguments Throw {A} message.

Definition Js (A : Type) : Type := list Effect * Completion A.

Definition ret {A : Type} (v : A) : Js A := ([], Normal v).

Definition throw {A : Type} (message : string) : Js A := ([], Throw message).

Definition emit (e : Effect) : Js unit := ([e], Normal tt).

Definition bind {A B : Type} (m : Js A) (k : A -> Js B) : Js B :=
  match m with
  | (es, Normal v) => let '(es', c) := k v in (es ++ es', c)
  | (es, Throw message) => (es, Throw message)
  end.

Declare Scope js_scope.
Delimit Scope js_scope with js.
Notation "x <- m ;; k" := (bind m (fun x => k))
  (at level 100, m at next level, right associativity) : js_scope.
Notation "m ;; k" := (bind m (fun _ => k))
  (at level 100, right associativity) : js_scope.

(** [try { body } catch (e) { handler(e.message) }]. *)
Definition tryCatch {A : Type} (body : Js A) (handler : string -> Js A) : Js A :=
  match body with
  | (es, Normal v) => (es, Normal v)
  | (es, Throw message) => let '(es', c) := handler message in (es ++ es', c)
  end.

(** [... finally { cleanup }]: the cleanup runs on both exits. *)
Definition finally {A : Type} (body : Js A) (cleanup : Js unit) : Js A :=
  let '(es, c) := body in
  let '(es', c') := cleanup in
  (es ++ es',
   match c' with
   | Normal _ => c
   | Throw message => Throw message
   end).

(** [await fetch(url, options)]. *)
Definition fetch (request : Request) (outcome : FetchOutcome)
    : Js (bool * N * JsonOutcome) :=
  match outcome with
  | FetchRejects message => ([Fetch request], Throw message)
  | FetchResolves ok status json => ([Fetch request], Normal (ok, status, json))
  end.

(** [await response.json()]. *)
Definition awaitJson (json : JsonOutcome) : Js JsonBody :=
  match json with
  | JsonRejects message => throw message
  | JsonResolves body => ret body
  end.

(** [errorData.detail || `HTTP error! status: ${response.status}`]. *)
Definition errorMessage (errorData : JsonBody) (status : N) : string :=
  if truthyString (detail errorData)
  then default "" (detail errorData)
  else "HTTP error! status: " +:+ pretty status.

(** [if (!response.ok) { const errorData = await response.json();
    throw new Error(...) }], the same in the four handlers. *)
Definition throwUnlessOk (response : bool * N * JsonOutcome) : Js unit :=
  let '(ok, status, json) := response in
  if ok then ret tt
  else (errorData <- awaitJson json ;;
        throw (errorMessage errorData status))%js.

(** The double quote of the template literal of [handleSearch]. *)
Definition quote : string := String (Ascii.ascii_of_nat 34) EmptyString.

Section Handlers.
Local Open Scope js_scope.

(** The host's [String.prototype.trim]. *)
Variable trim : string -> string.

(** [fetchOutlets], also run once when the page mounts. *)
Definition fetchOutlets (outcome : FetchOutcome) : Js unit :=
  emit (SetIsFetchingOutlets true) ;;
  finally
    (tryCatch
       (response <- fetch
          {| requestMethod := "GET";
             requestUrl := API_BASE_URL +:+ API_ENDPOINTS_outlets +:+ "?per_page=1000";
             requestBody := None |} outcome ;;
        throwUnlessOk response ;;
        data <- awaitJson (snd response) ;;
        emit (SetOutlets (outletsKey data)))
       (fun message => emit (SetError (Some message))))
    (emit (SetIsFetchingOutlets false)).

(** [handleSearch]: [scrape] answers the POST, [refresh] the GET of the
    [fetchOutlets] that follows. *)
Definition handleSearch (searchTerm : string) (scrape refresh : FetchOutcome)
    : Js unit :=
  if String.eqb (trim searchTerm) "" then
    emit (Alert (Some "Please enter a search term."))
  else
    emit (SetIsSearching true) ;;
    emit (SetError None) ;;
    finally
      (tryCatch
         (response <- fetch
            {| requestMethod := "POST";
               requestUrl := API_BASE_URL +:+ API_ENDPOINTS_scrapeAndSave;
               requestBody := Some (ScrapeBody searchTerm false) |} scrape ;;
          throwUnlessOk response ;;
          emit (Alert (Some ("Scraping process for " +:+ quote +:+ searchTerm
                             +:+ quote +:+ " started successfully! The data will be updated shortly."))) ;;
          fetchOutlets refresh)
         (fun message =>
            emit (SetError (Some message)) ;;
            emit (Alert (Some ("An error occurred: " +:+ message)))))
      (emit (SetIsSearching false)).

(** [handleAISearch]. *)
Definition handleAISearch (aiSearchQuery : string) (outcome : FetchOutcome)
    : Js unit :=
  if String.eqb (trim aiSearchQuery) "" then
    emit (Alert (Some "Please enter a question to ask the AI."))
  else
    emit (SetIsSearchingAI true) ;;
    emit (SetAiResponse (Some "")) ;;
    emit (SetSearchError None) ;;
    finally
      (tryCatch
         (response <- fetch
            {| requestMethod := "POST";
               requestUrl := API_BASE_URL +:+ API_ENDPOINTS_aiSearch;
               requestBody := Some (AiSearchBody aiSearchQuery) |} outcome ;;
          throwUnlessOk response ;;
          result <- awaitJson (snd response) ;;
          emit (SetAiResponse (responseKey result)))
         (fun message => emit (SetSearchError (Some message))))
      (emit (SetIsSearchingAI false)).

(** [handleRescrape]: [confirmed] is what the user answers to [confirm]. *)
Definition handleRescrape (confirmed : bool) (outcome : FetchOutcome) : Js unit :=
  emit (Confirm "Are you sure you want to delete all outlets and start a new scrape? This action cannot be undone.") ;;
  if negb confirmed then ret tt
  else
    emit (SetIsRescraping true) ;;
    emit (SetError None) ;;
    finally
      (tryCatch
         (response <- fetch
            {| requestMethod := "DELETE";
               requestUrl := API_BASE_URL +:+ API_ENDPOINTS_deleteAllOutlets;
               requestBody := None |} outcome ;;
          throwUnlessOk response ;;
          result <- awaitJson (snd response) ;;
          emit (Alert (messageKey result)) ;;
          emit (SetOutlets (Some [])))
         (fun message =>
            emit (SetError (Some message)) ;;
            emit (Alert (Some ("An error occurred: " +:+ message)))))
      (emit (SetIsRescraping false)).

End Handlers.

(** A state setter replaces one field. *)
Definition applyEffect (st : PageState) (e : Effect) : PageState :=
  match e with
  | Alert _ | Confirm _ | Fetch _ => st
  | SetOutlets v =>
      {| searchTerm := searchTerm st; pageOutlets := v;
         isSearching := isSearching st; isRescraping := isRescraping st;
         isFetchingOutlets := isFetchingOutlets st; error := error st;
         pageMapCenter := pageMapCenter st;
         aiSearchQuery := aiSearchQuery st;
         isSearchingAI := isSearchingAI st; aiResponse := aiResponse st;
         searchError := searchError st |}
  | SetIsSearching b =>
      {| searchTerm := searchTerm st; pageOutlets := pageOutlets st;
         isSearching := b; isRescraping := isRescraping st;
         isFetchingOutlets := isFetchingOutlets st; error := error st;
         pageMapCenter := pageMapCenter st;
         aiSearchQuery := aiSearchQuery st;
         isSearchingAI := isSearchingAI st; aiResponse := aiResponse st;
         searchError := searchError st |}
  | SetIsRescraping b =>
      {| searchTerm := searchTerm st; pageOutlets := pageOutlets st;
         isSearching := isSearching st; isRescraping := b;
         isFetchingOutlets := isFetchingOutlets st; error := error st;
         pageMapCenter := pageMapCenter st;
         aiSearchQuery := aiSearchQuery st;
         isSearchingAI := isSearchingAI st; aiResponse := aiResponse st;
         searchError := searchError st |}
  | SetIsFetchingOutlets b =>
      {| searchTerm := searchTerm st; pageOutlets := pageOutlets st;
         isSearching := isSearching st; isRescraping := isRescraping st;
         isFetchingOutlets := b; error := error st;
         pageMapCenter := pageMapCenter st;
         aiSearchQuery := aiSearchQuery st;
         isSearchingAI := isSearchingAI st; aiResponse := aiResponse st;
         searchError := searchError st |}
  | SetError v =>
      {| searchTerm := searchTerm st; pageOutlets := pageOutlets st;
         isSearching := isSearching st; isRescraping := isRescraping st;
         isFetchingOutlets := isFetchingOutlets st; error := v;
         pageMapCenter := pageMapCenter st;
         aiSearchQuery := aiSearchQuery st;
         isSearchingAI := isSearchingAI st; aiResponse := aiResponse st;
         searchError := searchError st |}
  | SetIsSearchingAI b =>
      {| searchTerm := searchTerm st; pageOutlets := pageOutlets st;
         isSearching := isSearching st; isRescraping := isRescraping st;
         isFetchingOutlets := isFetchingOutlets st; error := error st;
         pageMapCenter := pageMapCenter st;
         aiSearchQuery := aiSearchQuery st; isSearchingAI := b;
         aiResponse := aiResponse st; searchError := searchError st |}
  | SetAiResponse v =>
      {| searchTerm := searchTerm st; pageOutlets := pageOutlets st;
         isSearching := isSearching st; isRescraping := isRescraping st;
         isFetchingOutlets := isFetchingOutlets st; error := error st;
         pageMapCenter := pageMapCenter st;
         aiSearchQuery := aiSearchQuery st;
         isSearchingAI := isSearchingAI st; aiResponse := v;
         searchError := searchError st |}
  | SetSearchError v =>
      {| searchTerm := searchTerm st; pageOutlets := pageOutlets st;
         isSearching := isSearching st; isRescraping := isRescraping st;
         isFetchingOutlets := isFetchingOutlets st; error := error st;
         pageMapCenter := pageMapCenter st;
         aiSearchQuery := aiSearchQuery st;
         isSearchingAI := isSearchingAI st; aiResponse := aiResponse st;
         searchError := v |}
  end.

(** The state once a handler has run to its end. *)
Definition stateAfter (st : PageState) (run : Js unit) : PageState :=
  foldl applyEffect st (fst run).

Definition isAlert (e : Effect) : bool :=
  match e with Alert _ => true | _ => false end.

Definition isFetch (e : Effect) : bool :=
  match e with Fetch _ => true | _ => false end.

(** The prop the page hands to the map: [outlets = []] when the state
    holds [undefined] (the default of the destructured parameter). *)
Definition mapInput (st : PageState) : list Outlet := default [] (pageOutlets st).

(** The page state at mount and ASCII trimming for closed examples. *)
Definition pageAtMount : PageState :=
  mkPageState "" (Some []) false false false None
    (JsNumber 3.1390, JsNumber 101.6869) "" false (Some "") None.

Fixpoint dropSpaces (s : string) : string :=
  match s with
  | String c rest =>
      if Ascii.eqb c (Ascii.ascii_of_nat 32) then dropSpaces rest else s
  | EmptyString => s
  end.

Definition asciiTrim (s : string) : string :=
  String.rev (dropSpaces (String.rev (dropSpaces s))).

Section OutletMap.

(** The host's [Math.sin], [Math.cos] and [Math.atan2]. *)
Variables (sin64 cos64 : float -> float) (atan2_64 : float -> float -> float).

#[local] Instance host : NumberOps float := binary64 sin64 cos64 atan2_64.

(** The distance between the centres of two outlets, as line 38 calls
    [calculateDistance]; arithmetic coerces its operands with [ToNumber]. *)
Definition centerDistance (a b : Outlet) : float :=
  calculateDistance
    (ToNumber (latitude a)) (ToNumber (longitude a))
    (ToNumber (latitude b)) (ToNumber (longitude b)).

(** Line 44: [distance < catchmentRadius * 2]. *)
Definition circlesIntersect (catchmentRadius : float) (a b : Outlet) : bool :=
  (centerDistance a b <? catchmentRadius * 2)%float.

(** Lines 38-47, the body of the inner loop at indices [i] and [j].  Both
    indices are below [outletList.length] whenever the loops reach the
    body, so the last branch is never taken. *)
Definition pairStep (catchmentRadius : float) (outletList : list Outlet)
    (i j : nat) (intersecting : gset Z) : gset Z :=
  match outletList !! i, outletList !! j with
  | Some oi, Some oj =>
      if circlesIntersect catchmentRadius oi oj
      then {[ id oj ]} ∪ ({[ id oi ]} ∪ intersecting)
      else intersecting
  | _, _ => intersecting
  end.

(** Lines 37-48: [for (let j = i + 1; j < outletList.length; j++)]. *)
Definition innerLoop (catchmentRadius : float) (outletList : list Outlet)
    (i : nat) (intersecting : gset Z) : gset Z :=
  foldl (fun acc j => pairStep catchmentRadius outletList i j acc)
        intersecting
        (seq (S i) (length outletList - S i)).

(** Lines 33-51, with the local constant [catchmentRadius] as an
    argument: [for (let i = 0; i < outletList.length; i++)] around the
    inner loop, starting from [new Set()]. *)
Definition findIntersectingOutletsWith (catchmentRadius : float)
    (outletList : list Outlet) : gset Z :=
  foldl (fun acc i => innerLoop catchmentRadius outletList i acc)
        ∅
        (seq 0 (length outletList)).

(** Lines 32-52: [const catchmentRadius = 5]. *)
Definition findIntersectingOutlets (outletList : list Outlet) : gset Z :=
  findIntersectingOutletsWith 5%float outletList.

(** Lines 54-75: the effect run when [initialOutlets] changes. *)
Definition onOutletsChange (initialOutlets : list Outlet) (st : MapState)
    : MapState :=
  if (0 <? length initialOutlets)%nat then
    let validOutlets := filter (fun o => validOutlet o = true) initialOutlets in
    {| outlets := validOutlets;
       intersectingOutlets := findIntersectingOutlets validOutlets;
       mapCenter :=
         match validOutlets with
         | first :: _ => (latitude first, longitude first)
         | [] => mapCenter st
         end |}
  else
    {| outlets := []; intersectingOutlets := ∅; mapCenter := mapCenter st |}.


(** ** The haversine formula in binary64 *)

(** The formula in the words of the specification, every operation
    rounded to binary64 and sine, cosine and arctangent the host's: the
    differences of latitude and of longitude converted to radians, [h]
    with its products taken from left to right, and the distance
    [2 * R * atan2 (sqrt h) (sqrt (1 - h))] on the sphere of radius
    [R = 6371]. *)
Definition radians64 (degrees : float) : float := (degrees * PI64 / 180)%float.

Definition haversineH64 (lat_a lon_a lat_b lon_b : float) : float :=
  (let dlat := radians64 (lat_b - lat_a) in
   let dlon := radians64 (lon_b - lon_a) in
   sin64 (dlat / 2) * sin64 (dlat / 2) +
   cos64 (radians64 lat_a) * cos64 (radians64 lat_b) *
   sin64 (dlon / 2) * sin64 (dlon / 2))%float.

Definition haversine64 (lat_a lon_a lat_b lon_b : float) : float :=
  (let h := haversineH64 lat_a lon_a lat_b lon_b in
   2 * 6371 * atan2_64 (PrimFloat.sqrt h) (PrimFloat.sqrt (1 - h)))%float.


Definition haversineH (a b : Outlet) : float :=
  haversineH64 (ToNumber (latitude a)) (ToNumber (longitude a))
               (ToNumber (latitude b)) (ToNumber (longitude b)).

(** The pair of indices [i], [j] flags the id [x]. *)
Definition flaggedBy (catchmentRadius : float) (outletList : list Outlet)
    (i j : nat) (x : Z) : Prop :=
  exists oi oj,
    outletList !! i = Some oi /\ outletList !! j = Some oj /\
    circlesIntersect catchmentRadius oi oj = true /\
    (x = id oi \/ x = id oj).


(** * Binary64 facts used by the analysis *)

(** ** On the specification of the operations *)

Section SpecFloatFacts.
Local Open Scope Z_scope.

(** Close the side condition of a shift whose length is known. *)
Ltac digits_shift :=
  cbn [Zdigits2 digits2_pos]; rewrite ?Pos2Z.inj_succ;
  unfold fexp, emin, prec, emax; lia.

(** Split on every comparison of exponents and mantissas in sight. *)
Ltac cmp_cases :=
  repeat match goal with
  | H : context [Z.compare ?a ?b] |- _ => destruct (Z.compare_spec a b)
  | |- context [Z.compare ?a ?b] => destruct (Z.compare_spec a b)
  | H : context [Pos.compare_cont Eq ?a ?b] |- _ =>
      change (Pos.compare_cont Eq a b) with (Pos.compare a b) in *;
      destruct (Pos.compare_spec a b)
  | |- context [Pos.compare_cont Eq ?a ?b] =>
      change (Pos.compare_cont Eq a b) with (Pos.compare a b) in *;
      destruct (Pos.compare_spec a b)
  end.

(** Rounding never looks at the sign: negation commutes with
    multiplication and division, and swaps the operands of a
    subtraction. *)
Lemma SFopp_involutive x : SFopp (SFopp x) = x.
Proof. destruct x as [[]|[]| |[] ? ?]; reflexivity. Qed.

Lemma binary_round_aux_opp s m e l :
  binary_round_aux prec emax (negb s) m e l =
  SFopp (binary_round_aux prec emax s m e l).
Proof.
  unfold binary_round_aux.
  destruct (shr_fexp prec emax m e l) as [mrs' e'].
  destruct (shr_fexp prec emax _ e' loc_Exact) as [mrs'' e''].
  destruct (shr_m mrs''); [reflexivity| |reflexivity].
  destruct (Z.leb e'' _); reflexivity.
Qed.

Lemma SFmul_opp_l x y :
  SFmul prec emax (SFopp x) y = SFopp (SFmul prec emax x y).
Proof.
  destruct x as [sx|sx| |sx mx ex], y as [sy|sy| |sy my ey];
    cbn -[binary_round_aux];
    try reflexivity; try (destruct sx, sy; reflexivity).
  rewrite <- binary_round_aux_opp. destruct sx, sy; reflexivity.
Qed.

Lemma SFmul_comm x y : SFmul prec emax x y = SFmul prec emax y x.
Proof.
  destruct x as [sx|sx| |sx mx ex], y as [sy|sy| |sy my ey];
    cbn -[binary_round_aux];
    try reflexivity; try (destruct sx, sy; reflexivity).
  rewrite Pos.mul_comm, Z.add_comm, xorb_comm. reflexivity.
Qed.

Lemma SFdiv_opp_l x y :
  SFdiv prec emax (SFopp x) y = SFopp (SFdiv prec emax x y).
Proof.
  destruct x as [sx|sx| |sx mx ex], y as [sy|sy| |sy my ey];
    cbn -[binary_round_aux SFdiv_core_binary];
    try reflexivity; try (destruct sx, sy; reflexivity).
  destruct (SFdiv_core_binary _ _ _ _ _ _) as [[mz ez] lz].
  rewrite <- binary_round_aux_opp. destruct sx, sy; reflexivity.
Qed.

Lemma binary_normalize_opp m e :
  m <> 0 ->
  binary_normalize prec emax (- m) e false =
  SFopp (binary_normalize prec emax m e false).
Proof.
  destruct m as [|p|p]; [congruence| |]; intros _.
  - change (binary_round prec emax true p e =
            SFopp (binary_round prec emax false p e)).
    unfold binary_round. destruct (shl_align _ _ _) as [mz ez].
    apply (binary_round_aux_opp false (Zpos mz) ez loc_Exact).
  - change (binary_round prec emax false p e =
            SFopp (binary_round prec emax true p e)).
    unfold binary_round. destruct (shl_align _ _ _) as [mz ez].
    apply (binary_round_aux_opp true (Zpos mz) ez loc_Exact).
Qed.

(** [y - x] is the opposite of [x - y], unless both are the [+0] of an
    exact cancellation. *)
Lemma SFsub_swap x y :
  SFsub prec emax y x = SFopp (SFsub prec emax x y) \/
  (SFsub prec emax x y = S754_zero false /\
   SFsub prec emax y x = S754_zero false).
Proof.
  destruct x as [sx|sx| |sx mx ex], y as [sy|sy| |sy my ey];
    try (left; reflexivity);
    try (destruct sx, sy; cbn; (left; reflexivity) || (right; split; reflexivity)).
  unfold SFsub. rewrite (Z.min_comm ey ex).
  set (a := cond_Zopp sx _). set (b := cond_Zopp sy _).
  destruct (Z.eq_dec (a - b) 0) as [E|E].
  - right. replace (b - a)%Z with 0%Z by lia. rewrite E. split; reflexivity.
  - left. replace (b - a)%Z with (- (a - b))%Z by lia.
    apply binary_normalize_opp, E.
Qed.

(** Doubling a finite number: the exponent moves up by one, to infinity
    past the largest exponent; a subnormal mantissa doubles in place. *)
Lemma shr_fexp_exact m e n :
  fexp prec emax (Zdigits2 m + e) - e = n ->
  shr_fexp prec emax m e loc_Exact = shr (Build_shr_record m false false) e n.
Proof. intros <-. reflexivity. Qed.

Lemma bounded_inv m e :
  bounded prec emax m e = true ->
  e <= 971 /\
  ((Zpos (digits2_pos m) = 53 /\ -1074 <= e) \/
   (Zpos (digits2_pos m) < 53 /\ e = -1074)).
Proof.
  unfold bounded, canonical_mantissa, fexp, emin, prec, emax.
  intros Hb. apply andb_prop in Hb as [Hc He].
  apply Z.eqb_eq in Hc. apply Z.leb_le in He. lia.
Qed.

Lemma SFmul_two s m e :
  bounded prec emax m e = true ->
  SFmul prec emax (S754_finite s m e) SFtwo =
  if Zpos (digits2_pos m) =? 53
  then (if e + 1 <=? 971 then S754_finite s m (e + 1) else S754_infinity s)
  else S754_finite s m~0 e.
Proof.
  intros Hb. destruct (bounded_inv m e Hb) as [He [[Hd Hlo]|[Hd Hlo]]].
  - rewrite Hd. cbn [Z.eqb Pos.eqb].
    unfold SFtwo, SFmul. rewrite Pos.mul_comm, xorb_false_r.
    cbv [Pos.mul]. unfold binary_round_aux.
    rewrite (shr_fexp_exact _ _ 52) by digits_shift.
    cbn [shr SpecFloat.iter_pos shr_1 orb shr_m loc_of_shr_record round_nearest_even].
    rewrite (shr_fexp_exact _ _ 0) by digits_shift.
    cbn [shr shr_m]. replace (e + -51 + 52) with (e + 1) by lia. reflexivity.
  - destruct (Z.eqb_spec (Zpos (digits2_pos m)) 53) as [E|_]; [lia|].
    unfold SFtwo, SFmul. rewrite Pos.mul_comm, xorb_false_r.
    cbv [Pos.mul]. unfold binary_round_aux.
    rewrite (shr_fexp_exact _ _ 51) by digits_shift.
    cbn [shr SpecFloat.iter_pos shr_1 orb shr_m loc_of_shr_record round_nearest_even].
    rewrite (shr_fexp_exact _ _ 0) by digits_shift.
    cbn [shr shr_m]. replace (e + -51 + 51) with e by lia.
    subst e. reflexivity.
Qed.

(** The order of [SFcompare] is transitive. *)
Lemma SFltb_leb_trans d a b :
  SFltb d a = true -> SFleb a b = true -> SFltb d b = true.
Proof.
  unfold SFltb, SFleb, SFcompare.
  destruct d as [sd|sd| |sd md ed], a as [sa|sa| |sa ma ea], b as [sb|sb| |sb mb eb];
    try discriminate; try reflexivity;
    try (destruct sd; try discriminate; try reflexivity);
    try (destruct sa; try discriminate; try reflexivity);
    try (destruct sb; try discriminate; try reflexivity).
  all: cbn [CompOpp]; intros H1 H2; cmp_cases; cbn [CompOpp] in *;
    try discriminate; try reflexivity; try lia.
Qed.

(** A mantissa with fewer digits is smaller. *)
Lemma digits2_pos_size p : digits2_pos p = Pos.size p.
Proof. induction p; cbn; congruence. Qed.

Lemma digits2_pos_lt p q :
  Zpos (digits2_pos p) < Zpos (digits2_pos q) -> Zpos p < Zpos q.
Proof.
  rewrite (digits2_pos_size p), (digits2_pos_size q). intros Hlt.
  pose proof (Pos.size_gt p) as Hp. pose proof (Pos.size_le q) as Hq.
  apply Pos2Z.pos_lt_pos in Hp. apply Pos2Z.pos_le_pos in Hq.
  rewrite Pos2Z.inj_pow in Hp, Hq.
  assert (2 ^ Zpos (Pos.size p) <= 2 ^ (Zpos (Pos.size q) - 1)) as Hmono
    by (apply Z.pow_le_mono_r; lia).
  assert (2 ^ Zpos (Pos.size q) = 2 * 2 ^ (Zpos (Pos.size q) - 1)) as Hsplit.
  { rewrite <- Z.pow_succ_r by lia. f_equal. lia. }
  lia.
Qed.

(** Doubling is monotone on valid numbers. *)
Lemma SFleb_double a b :
  valid_binary a = true -> valid_binary b = true ->
  SFleb a b = true ->
  SFleb (SFmul prec emax a SFtwo) (SFmul prec emax b SFtwo) = true.
Proof.
  destruct a as [sa|sa| |sa ma ea], b as [sb|sb| |sb mb eb]; cbn [SpecFloat.valid_binary];
    intros Ha Hb;
    rewrite ?SFmul_two by assumption;
    try (apply bounded_inv in Ha as [Ha1 Ha2]);
    try (apply bounded_inv in Hb as [Hb1 Hb2]);
    try (pose proof (digits2_pos_lt ma mb)); try (pose proof (digits2_pos_lt mb ma));
    repeat match goal with
    | |- context [Z.eqb ?x ?y] => destruct (Z.eqb_spec x y)
    | |- context [Z.leb ?x ?y] => destruct (Z.leb_spec x y)
    end;
    unfold SFleb, SFcompare, SFtwo, SFmul;
    try discriminate; try reflexivity;
    try (destruct sa; try discriminate; try reflexivity);
    try (destruct sb; try discriminate; try reflexivity).
  all: cbn [xorb CompOpp]; intros Hle; cmp_cases; cbn [CompOpp] in *;
    try discriminate; try reflexivity; try lia.
Qed.

(** Rounding keeps the sign it is given. *)
Lemma binary_round_aux_sign s m e l :
  binary_round_aux prec emax s m e l = S754_nan \/
  binary_round_aux prec emax s m e l = S754_zero s \/
  binary_round_aux prec emax s m e l = S754_infinity s \/
  exists m' e', binary_round_aux prec emax s m e l = S754_finite s m' e'.
Proof.
  unfold binary_round_aux.
  destruct (shr_fexp prec emax m e l) as [mrs' e'].
  destruct (shr_fexp prec emax _ e' loc_Exact) as [mrs'' e''].
  destruct (shr_m mrs''); [auto|..|auto].
  destruct (Z.leb e'' _); eauto 6.
Qed.

(** A square is never negative. *)
Lemma SFmul_square_sign x :
  SFmul prec emax x x = S754_nan \/
  SFmul prec emax x x = S754_zero false \/
  SFmul prec emax x x = S754_infinity false \/
  exists m e, SFmul prec emax x x = S754_finite false m e.
Proof.
  destruct x as [s|s| |s m e]; cbn -[binary_round_aux];
    rewrite ?xorb_nilpotent; auto.
  apply binary_round_aux_sign.
Qed.

(** A finite number minus itself is [+0]. *)
Lemma SFsub_diag_finite x :
  (exists s, x = S754_zero s) \/ (exists s m e, x = S754_finite s m e) ->
  SFsub prec emax x x = S754_zero false.
Proof.
  intros [[s ->]|(s&m&e&->)]; [by destruct s|].
  unfold SFsub. by rewrite Z.sub_diag.
Qed.

(** The order has no place for [NaN]. *)
Lemma SFltb_nan_l x : SFltb S754_nan x = false.
Proof. reflexivity. Qed.

(** ** Shifts, and what rounding does to large and to non-zero numbers *)

Lemma iter_pos_nat {A} (f : A -> A) n x :
  SpecFloat.iter_pos f n x = Nat.iter (Pos.to_nat n) f x.
Proof.
  revert x. induction n as [n IH|n IH|]; intros x; cbn [SpecFloat.iter_pos].
  - rewrite !IH, Pos2Nat.inj_xI. cbn [Nat.mul]. rewrite Nat.add_0_r.
    rewrite <- Nat.iter_add, <- Nat.iter_succ_r. reflexivity.
  - rewrite !IH, Pos2Nat.inj_xO. cbn [Nat.mul]. rewrite Nat.add_0_r.
    rewrite <- Nat.iter_add. reflexivity.
  - reflexivity.
Qed.

Lemma iter_pos_succ {A} (f : A -> A) n x :
  SpecFloat.iter_pos f (Pos.succ n) x = SpecFloat.iter_pos f n (f x).
Proof.
  rewrite !iter_pos_nat, Pos2Nat.inj_succ. apply Nat.iter_succ_r.
Qed.

Lemma shr_m_shr_1 mrs : 0 <= shr_m mrs -> shr_m (shr_1 mrs) = Z.div2 (shr_m mrs).
Proof. destruct mrs as [[|[p|p|]|p] r s]; cbn; try reflexivity; lia. Qed.

Lemma shr_m_iter mrs k :
  0 <= shr_m mrs ->
  shr_m (Nat.iter k shr_1 mrs) = shr_m mrs / 2 ^ Z.of_nat k.
Proof.
  intros Hm. induction k as [|k IH].
  - cbn. by rewrite Z.div_1_r.
  - rewrite Nat.iter_succ, shr_m_shr_1, IH.
    + rewrite Z.div2_div, Nat2Z.inj_succ, Z.pow_succ_r by lia.
      rewrite Z.div_div by lia. f_equal. lia.
    + rewrite IH. apply Z.div_pos; lia.
Qed.


Lemma shr_m_shr mrs e n mrs' e' :
  0 <= shr_m mrs -> shr mrs e n = (mrs', e') ->
  (n <= 0 /\ mrs' = mrs /\ e' = e) \/
  (0 < n /\ shr_m mrs' = shr_m mrs / 2 ^ n /\ e' = e + n).
Proof.
  intros Hm. destruct n as [|n|n]; cbn [shr]; intros [= <- <-].
  - left. repeat split; lia.
  - right. rewrite iter_pos_nat, shr_m_iter, positive_nat_Z by done.
    repeat split; lia.
  - left. repeat split; lia.
Qed.

Lemma shr_m_shr_record_of_loc m l : shr_m (shr_record_of_loc m l) = m.
Proof. by destruct l as [|[]]. Qed.

(** A mantissa of [d] digits lies between [2 ^ (d - 1)] and [2 ^ d]. *)
Lemma digits2_pos_bounds p :
  2 ^ (Zpos (digits2_pos p) - 1) <= Zpos p < 2 ^ Zpos (digits2_pos p).
Proof.
  rewrite digits2_pos_size.
  pose proof (Pos.size_gt p) as Hp. pose proof (Pos.size_le p) as Hq.
  apply Pos2Z.pos_lt_pos in Hp. apply Pos2Z.pos_le_pos in Hq.
  rewrite Pos2Z.inj_pow in Hp, Hq.
  assert (2 ^ Zpos (Pos.size p) = 2 * 2 ^ (Zpos (Pos.size p) - 1)) as Hsplit.
  { rewrite <- Z.pow_succ_r by lia. f_equal. lia. }
  lia.
Qed.

Lemma shiftr_digits_pos p n :
  0 <= n < Zpos (digits2_pos p) -> 0 < Zpos p / 2 ^ n.
Proof.
  intros Hn. destruct (digits2_pos_bounds p) as [Hlo _].
  assert (2 ^ n <= 2 ^ (Zpos (digits2_pos p) - 1)) by (apply Z.pow_le_mono_r; lia).
  apply Z.div_str_pos. split; [apply Z.pow_pos_nonneg|]; lia.
Qed.

Lemma round_nearest_even_ge m l : m <= round_nearest_even m l.
Proof.
  destruct l as [|[]]; cbn; try lia. destruct (IntDef.Z.even m); lia.
Qed.

(** What one alignment to the format does to a positive mantissa. *)
Lemma shr_fexp_pos p e l mrs' e' :
  -1074 < e + Zpos (digits2_pos p) ->
  shr_fexp prec emax (Zpos p) e l = (mrs', e') ->
  0 < shr_m mrs' /\ e + Zpos (digits2_pos p) - 53 <= e' /\ e <= e'.
Proof.
  unfold shr_fexp. intros Hlo Hs.
  apply shr_m_shr in Hs as [(Hn & -> & ->)|(Hn & Hm & ->)];
    rewrite ?shr_m_shr_record_of_loc in *; try done;
    cbn [Zdigits2] in *; unfold fexp, emin, prec, emax in *.
  - lia.
  - split; [|lia]. rewrite Hm. apply shiftr_digits_pos. lia.
Qed.

(** A product too large for the format rounds to infinity. *)
Lemma binary_round_aux_overflow s p e l :
  1024 < Zpos (digits2_pos p) + e ->
  binary_round_aux prec emax s (Zpos p) e l = S754_infinity s.
Proof.
  intros Hbig. unfold binary_round_aux.
  destruct (shr_fexp prec emax (Zpos p) e l) as [mrs' e'] eqn:E1.
  apply shr_fexp_pos in E1 as (Hm1 & He1 & _); [|lia].
  pose proof (round_nearest_even_ge (shr_m mrs') (loc_of_shr_record mrs')) as Hr.
  destruct (round_nearest_even _ _) as [|q|q]; try lia.
  destruct (shr_fexp prec emax (Zpos q) e' loc_Exact) as [mrs'' e''] eqn:E2.
  apply shr_fexp_pos in E2 as (Hm2 & _ & He2); [|lia].
  destruct (shr_m mrs'') as [|q'|q']; try lia.
  destruct (Z.leb_spec e'' (emax - prec)); [unfold emax, prec in *; lia|done].
Qed.

(** Rounding an even mantissa is rounding its half one exponent up, once
    the mantissa fills the format. *)
Lemma binary_round_aux_double s p e :
  53 <= Zpos (digits2_pos p) ->
  binary_round_aux prec emax s (Zpos p~0) e loc_Exact =
  binary_round_aux prec emax s (Zpos p) (e + 1) loc_Exact.
Proof.
  intros Hd. unfold binary_round_aux.
  assert (shr_fexp prec emax (Zpos p~0) e loc_Exact =
          shr_fexp prec emax (Zpos p) (e + 1) loc_Exact) as ->; [|done].
  unfold shr_fexp. cbn [Zdigits2 digits2_pos shr_record_of_loc].
  rewrite Pos2Z.inj_succ.
  replace (Z.succ (Zpos (digits2_pos p)) + e) with (Zpos (digits2_pos p) + (e + 1)) by lia.
  set (f := fexp prec emax _).
  assert (e + 1 <= f) as Hf by (unfold f, fexp, emin, prec, emax; lia).
  destruct (f - (e + 1)) as [|n|n] eqn:En; try lia.
  - replace (f - e) with 1 by lia. reflexivity.
  - replace (f - e) with (Zpos (Pos.succ n)) by lia.
    cbn [shr]. rewrite iter_pos_succ. cbn [shr_1 orb]. f_equal. lia.
Qed.

(** The mantissa of the product of two full mantissas. *)
Lemma digits2_pos_mul_ge p q :
  Zpos (digits2_pos p) + Zpos (digits2_pos q) - 1 <= Zpos (digits2_pos (p * q)).
Proof.
  destruct (digits2_pos_bounds p) as [Hp _], (digits2_pos_bounds q) as [Hq _].
  destruct (digits2_pos_bounds (p * q)) as [_ Hpq].
  rewrite Pos2Z.inj_mul in Hpq.
  assert (2 ^ (Zpos (digits2_pos p) - 1) * 2 ^ (Zpos (digits2_pos q) - 1) < 
          2 ^ Zpos (digits2_pos (p * q))) as Hlt.
  { eapply Z.le_lt_trans; [|exact Hpq]. apply Z.mul_le_mono_nonneg; try lia;
      apply Z.pow_nonneg; lia. }
  rewrite <- Z.pow_add_r in Hlt by lia.
  apply Z.pow_lt_mono_r_iff in Hlt; lia.
Qed.

(** Twice the radius: [6371 * (2 * x)] and [12742 * x] round alike, also
    where [2 * x] overflows or [x] is subnormal. *)
Lemma SFmul_diameter x :
  valid_binary x = true ->
  SFmul prec emax (Prim2SF 6371) (SFmul prec emax x SFtwo) =
  SFmul prec emax (Prim2SF 12742) x.
Proof.
  change (Prim2SF 6371) with (S754_finite false 7004988580560896 (-40)).
  change (Prim2SF 12742) with (S754_finite false 7004988580560896 (-39)).
  destruct x as [s|s| |s m e]; cbn [SpecFloat.valid_binary]; intros Hb;
    try reflexivity; try (by destruct s).
  rewrite SFmul_two by done.
  pose proof (digits2_pos_mul_ge 7004988580560896 m) as Hd.
  change (Zpos (digits2_pos 7004988580560896)) with 53 in Hd.
  destruct (bounded_inv m e Hb) as [He [[Hm Hlo]|[Hm Hlo]]].
  - rewrite Hm. cbn [Z.eqb Pos.eqb].
    destruct (Z.leb_spec (e + 1) 971).
    + unfold SFmul. f_equal. lia.
    + unfold SFmul. rewrite binary_round_aux_overflow by lia. reflexivity.
  - destruct (Z.eqb_spec (Zpos (digits2_pos m)) 53) as [E|_]; [lia|].
    unfold SFmul. rewrite Pos.mul_xO_r, binary_round_aux_double by lia.
    f_equal. lia.
Qed.

Lemma shl_align_value mx ex ez :
  ez <= ex -> Zpos (fst (shl_align mx ex ez)) = Zpos mx * 2 ^ (ex - ez).
Proof.
  intros Hle. unfold shl_align. destruct (ez - ex) as [|d|d] eqn:Ed; try lia.
  - replace (ex - ez) with 0 by lia. cbn [fst]. lia.
  - cbn [fst]. change (PosDef.Pos.iter xO mx d) with (shift_pos d mx).
    rewrite shift_pos_correct, Z.pow_pos_fold.
    replace (ex - ez) with (Zpos d) by lia. lia.
Qed.

Lemma shl_align_exponent mx ex ez :
  -1074 <= ex -> -1074 <= ez -> -1074 <= snd (shl_align mx ex ez).
Proof. unfold shl_align. by destruct (ez - ex). Qed.

(** A non-zero integer at an exponent of the format does not round to
    zero. *)
Lemma binary_round_aux_nonzero s p e l :
  -1074 <= e ->
  binary_round_aux prec emax s (Zpos p) e l = S754_infinity s \/
  exists m' e', binary_round_aux prec emax s (Zpos p) e l = S754_finite s m' e'.
Proof.
  intros He. unfold binary_round_aux.
  destruct (shr_fexp prec emax (Zpos p) e l) as [mrs' e'] eqn:E1.
  apply shr_fexp_pos in E1 as (Hm1 & _ & He1); [|lia].
  pose proof (round_nearest_even_ge (shr_m mrs') (loc_of_shr_record mrs')) as Hr.
  destruct (round_nearest_even _ _) as [|q|q]; try lia.
  destruct (shr_fexp prec emax (Zpos q) e' loc_Exact) as [mrs'' e''] eqn:E2.
  apply shr_fexp_pos in E2 as (Hm2 & _ & He2); [|lia].
  destruct (shr_m mrs'') as [|q'|q']; try lia.
  destruct (Z.leb e'' (emax - prec)); eauto.
Qed.

Lemma binary_round_nonzero s p e :
  -1074 <= e ->
  binary_round prec emax s p e = S754_infinity s \/
  exists m' e', binary_round prec emax s p e = S754_finite s m' e'.
Proof.
  intros He. unfold binary_round.
  pose proof (shl_align_exponent p e
    (fexp prec emax (Zpos (digits2_pos p) + e)) He) as Hz.
  destruct (shl_align p e _) as [mz ez]. cbn [snd] in Hz.
  apply binary_round_aux_nonzero, Hz. unfold fexp, emin, prec, emax. lia.
Qed.

(** [1 - x] is negative, and not a zero, for every [x] above 1; its
    square root is [NaN]. *)
Lemma SFsqrt_one_minus x :
  valid_binary x = true ->
  SFltb (Prim2SF 1) x = true ->
  SFsqrt prec emax (SFsub prec emax (Prim2SF 1) x) = S754_nan.
Proof.
  change (Prim2SF 1) with (S754_finite false 4503599627370496 (-52)).
  destruct x as [s|[]| |[] m e]; cbn [SpecFloat.valid_binary]; intros Hb;
    unfold SFltb, SFcompare; try discriminate; try reflexivity.
  intros Hlt. destruct (bounded_inv m e Hb) as [He Hd].
  unfold SFsub. cbn [cond_Zopp].
  rewrite !shl_align_value by lia.
  set (z := _ - _).
  assert (z < 0) as Hz.
  { unfold z. destruct (Z.compare_spec (-52) e) as [<-|Hlo|Hhi]; try discriminate.
    - change (Pos.compare_cont Eq 4503599627370496 m)
        with (Pos.compare 4503599627370496 m) in Hlt.
      destruct (Pos.compare_spec 4503599627370496 m); try discriminate.
      rewrite Z.min_id, Z.sub_diag. cbn [Z.pow]. lia.
    - rewrite Z.min_l by lia. rewrite Z.sub_diag.
      destruct (digits2_pos_bounds m) as [Hm _].
      destruct Hd as [[Hd _]|[_ Hd]]; [|lia]. rewrite Hd in Hm.
      assert (2 <= 2 ^ (e - -52)).
      { change 2 with (2 ^ 1) at 1. apply Z.pow_le_mono_r; lia. }
      change (2 ^ (53 - 1)) with 4503599627370496 in Hm.
      cbn [Z.pow]. nia. }
  destruct z as [|q|q]; try lia.
  cbn [binary_normalize].
  destruct (binary_round_nonzero true q (Z.min (-52) e)) as [->|(m'&e'&->)];
    [lia|reflexivity..].
Qed.

End SpecFloatFacts.

(** ** On binary64 itself *)

Section FloatFacts.
Local Open Scope float_scope.

Lemma float_opp_involutive x : - - x = x.
Proof. apply Prim2SF_inj. rewrite !opp_spec. apply SFopp_involutive. Qed.

Lemma float_mul_opp_l x y : (- x) * y = - (x * y).
Proof. apply Prim2SF_inj. rewrite opp_spec, !mul_spec, opp_spec. apply SFmul_opp_l. Qed.

Lemma float_mul_comm x y : x * y = y * x.
Proof. apply Prim2SF_inj. rewrite !mul_spec. apply SFmul_comm. Qed.

Lemma float_div_opp_l x y : (- x) / y = - (x / y).
Proof. apply Prim2SF_inj. rewrite opp_spec, !div_spec, opp_spec. apply SFdiv_opp_l. Qed.

Lemma float_mul_opp_opp x y : (- x) * (- y) = x * y.
Proof.
  rewrite float_mul_opp_l, (float_mul_comm x (- y)), float_mul_opp_l.
  rewrite float_opp_involutive. apply float_mul_comm.
Qed.

Lemma float_sub_swap x y : y - x = - (x - y) \/ (x - y = 0 /\ y - x = 0).
Proof.
  destruct (SFsub_swap (Prim2SF x) (Prim2SF y)) as [E|[E1 E2]].
  - left. apply Prim2SF_inj. rewrite opp_spec, !sub_spec. exact E.
  - right. split; apply Prim2SF_inj; rewrite sub_spec; assumption.
Qed.


(** Doubling is monotone, also where it overflows: line 44 compares with
    [catchmentRadius * 2]. *)
Lemma float_ltb_double_mono d r1 r2 :
  (d <? r1 * 2) = true -> (r1 <=? r2) = true -> (d <? r2 * 2) = true.
Proof.
  rewrite !ltb_spec, leb_spec, !mul_spec. change (Prim2SF 2) with SFtwo.
  intros Hd Hr. eapply SFltb_leb_trans; [exact Hd|].
  apply SFleb_double; auto using Prim2SF_valid.
Qed.

(** [NaN] goes through every operation of the distance. *)
Lemma float_sub_nan_l x : nan - x = nan.
Proof. apply Prim2SF_inj. rewrite sub_spec. reflexivity. Qed.

Lemma float_sub_nan_r x : x - nan = nan.
Proof.
  apply Prim2SF_inj. rewrite sub_spec. change (Prim2SF nan) with S754_nan.
  by destruct (Prim2SF x).
Qed.

Lemma float_mul_nan_l x : nan * x = nan.
Proof. apply Prim2SF_inj. rewrite mul_spec. reflexivity. Qed.

Lemma float_mul_nan_r x : x * nan = nan.
Proof. by rewrite float_mul_comm, float_mul_nan_l. Qed.

Lemma float_div_nan_l x : nan / x = nan.
Proof. apply Prim2SF_inj. rewrite div_spec. reflexivity. Qed.

Lemma float_add_nan_l x : nan + x = nan.
Proof. apply Prim2SF_inj. rewrite add_spec. reflexivity. Qed.

Lemma float_add_nan_r x : x + nan = nan.
Proof.
  apply Prim2SF_inj. rewrite add_spec. change (Prim2SF nan) with S754_nan.
  by destruct (Prim2SF x).
Qed.

Lemma float_ltb_nan_l x : (nan <? x) = false.
Proof. rewrite ltb_spec. reflexivity. Qed.

(** What [is_finite] says about the representation. *)
Lemma float_is_finite_inv x :
  is_finite x = true ->
  (exists s, Prim2SF x = S754_zero s) \/
  (exists s m e, Prim2SF x = S754_finite s m e).
Proof.
  unfold is_finite, is_nan, is_infinity.
  rewrite !FloatAxioms.eqb_spec, abs_spec.
  change (Prim2SF infinity) with (S754_infinity false).
  destruct (Prim2SF x) as [s|s| |s m e]; eauto.
  - by destruct s.
  - done.
Qed.

Lemma float_sub_diag x : is_finite x = true -> x - x = 0.
Proof.
  intros Hx. apply Prim2SF_inj. rewrite sub_spec.
  by apply SFsub_diag_finite, float_is_finite_inv.
Qed.

(** A finite square times [+0] is [+0]. *)
Lemma float_square_mul_zero c : is_finite (c * c) = true -> c * c * 0 = 0.
Proof.
  intros Hc. apply float_is_finite_inv in Hc. apply Prim2SF_inj.
  rewrite mul_spec. rewrite mul_spec in Hc |- *.
  change (Prim2SF 0) with (S754_zero false).
  destruct (SFmul_square_sign (Prim2SF c)) as [E|[E|[E|(m&e&E)]]];
    unfold SF64mul in *; rewrite E in Hc |- *; try reflexivity;
    destruct Hc as [[s Hc]|(s&m'&e'&Hc)]; discriminate.
Qed.

(** [R * (2 * t)], as line 28 computes it, is [2 * R * t]. *)
Lemma float_mul_diameter t : 6371 * (2 * t) = 2 * 6371 * t.
Proof.
  change (2 * 6371) with 12742. rewrite (float_mul_comm 2 t).
  apply Prim2SF_inj. rewrite !mul_spec. change (Prim2SF 2) with SFtwo.
  apply SFmul_diameter, Prim2SF_valid.
Qed.

(** The square root of [1 - h] is [NaN] once [h] is above 1. *)
Lemma float_sqrt_one_minus h : (1 <? h) = true -> PrimFloat.sqrt (1 - h) = nan.
Proof.
  rewrite ltb_spec. intros Hlt. apply Prim2SF_inj.
  rewrite sqrt_spec, sub_spec. apply SFsqrt_one_minus; [apply Prim2SF_valid|done].
Qed.

Lemma float_div_nan_r x : x / nan = nan.
Proof.
  apply Prim2SF_inj. rewrite div_spec. change (Prim2SF nan) with S754_nan.
  by destruct (Prim2SF x).
Qed.

End FloatFacts.

(** * The distance in binary64 *)

(** The body of [calculateDistance] at the host's arithmetic: every
    operation is the binary64 one, every literal the binary64 constant. *)
Lemma calculateDistance_binary64 (lat1 lon1 lat2 lon2 : float) :
  calculateDistance (H := host) lat1 lon1 lat2 lon2 =
  (let dLat := (lat2 - lat1) * PI64 / 180 in
   let dLon := (lon2 - lon1) * PI64 / 180 in
   let a :=
     sin64 (dLat / 2) * sin64 (dLat / 2) +
     cos64 (lat1 * PI64 / 180) * cos64 (lat2 * PI64 / 180) *
     sin64 (dLon / 2) * sin64 (dLon / 2) in
   6371 * (2 * atan2_64 (PrimFloat.sqrt a) (PrimFloat.sqrt (1 - a))))%float.
Proof. reflexivity. Qed.




(** C2, as amended: the distance used by the overlap analysis is the
    haversine formula on a sphere of radius 6371 km evaluated in binary64
    with the host's sine, cosine and arctangent, every operation rounded:
    for all four coordinates [calculateDistance] returns
    [2 * R * atan2 (sqrt h) (sqrt (1 - h))] with [h] built from the
    differences in radians; this is the number computed for two outlets,
    and the number line 44 compares with twice the radius. *)
Theorem distance_is_binary64_haversine :
  (forall lat_a lon_a lat_b lon_b : float,
     calculateDistance (H := host) lat_a lon_a lat_b lon_b =
     (let dlat := (lat_b - lat_a) * PI64 / 180 in
      let dlon := (lon_b - lon_a) * PI64 / 180 in
      let h :=
        sin64 (dlat / 2) * sin64 (dlat / 2) +
        cos64 (lat_a * PI64 / 180) * cos64 (lat_b * PI64 / 180) *
        sin64 (dlon / 2) * sin64 (dlon / 2) in
      2 * 6371 * atan2_64 (PrimFloat.sqrt h) (PrimFloat.sqrt (1 - h)))%float) /\
  (forall a b : Outlet,
     centerDistance a b =
     haversine64 (ToNumber (latitude a)) (ToNumber (longitude a))
                 (ToNumber (latitude b)) (ToNumber (longitude b))) /\
  (forall (r : float) (a b : Outlet),
     circlesIntersect r a b =
     (haversine64 (ToNumber (latitude a)) (ToNumber (longitude a))
                  (ToNumber (latitude b)) (ToNumber (longitude b)) <? r * 2)%float).
Proof.
  assert (forall lat_a lon_a lat_b lon_b : float,
            calculateDistance (H := host) lat_a lon_a lat_b lon_b =
            haversine64 lat_a lon_a lat_b lon_b) as Hdistance.
  { intros. rewrite calculateDistance_binary64.
    unfold haversine64, haversineH64, radians64. cbv zeta.
    apply float_mul_diameter. }
  split; [exact Hdistance|].
  split; [|intros r a b; unfold circlesIntersect, centerDistance; f_equal];
    intros; unfold centerDistance; apply Hdistance.
Qed.

(** * The loops of [findIntersectingOutlets] *)

Lemma elem_of_pairStep r (l : list Outlet) i j acc x :
  x ∈ pairStep r l i j acc <-> x ∈ acc \/ flaggedBy r l i j x.
Proof.
  unfold pairStep, flaggedBy.
  destruct (l !! i) as [oi|] eqn:Ei, (l !! j) as [oj|] eqn:Ej;
    [destruct (circlesIntersect r oi oj) eqn:Ec|..].
  - rewrite !elem_of_union, !elem_of_singleton. naive_solver.
  - split; [auto|]. intros [?|(oi'&oj'&Hi&Hj&Hc&_)]; [done|]. congruence.
  - naive_solver.
  - naive_solver.
  - naive_solver.
Qed.

Lemma elem_of_foldl_pairStep r (l : list Outlet) i js acc x :
  x ∈ foldl (fun acc j => pairStep r l i j acc) acc js <->
  x ∈ acc \/ exists j, j ∈ js /\ flaggedBy r l i j x.
Proof.
  revert acc. induction js as [|j js IH]; intros acc; cbn [foldl].
  - split; [auto|]. intros [?|(j&Hj&_)]; [done|]. by apply elem_of_nil in Hj.
  - rewrite IH, elem_of_pairStep. split.
    + intros [[?|?]|(j'&?&?)]; [by left|right; exists j|right; exists j'];
        (split; [|done]); set_solver.
    + intros [?|(j'&Hj'&?)]; [by left; left|].
      apply elem_of_cons in Hj' as [->|?]; [by left; right|right; eauto].
Qed.

Lemma elem_of_innerLoop r (l : list Outlet) i acc x :
  x ∈ innerLoop r l i acc <->
  x ∈ acc \/ exists j, (i < j < length l)%nat /\ flaggedBy r l i j x.
Proof.
  unfold innerLoop. rewrite elem_of_foldl_pairStep.
  split; (intros [?|(j&Hj&?)]; [by left|right; exists j; split; [|done]]).
  - apply elem_of_seq in Hj. lia.
  - apply elem_of_seq. lia.
Qed.

Lemma elem_of_foldl_innerLoop r (l : list Outlet) ixs acc x :
  x ∈ foldl (fun acc i => innerLoop r l i acc) acc ixs <->
  x ∈ acc \/ exists i j, i ∈ ixs /\ (i < j < length l)%nat /\ flaggedBy r l i j x.
Proof.
  revert acc. induction ixs as [|i ixs IH]; intros acc; cbn [foldl].
  - split; [auto|]. intros [?|(i&j&Hi&_)]; [done|]. by apply elem_of_nil in Hi.
  - rewrite IH, elem_of_innerLoop. split.
    + intros [[?|(j&?&?)]|(i'&j&?&?&?)];
        [by left|right; exists i, j|right; exists i', j];
        (split; [|done]); set_solver.
    + intros [?|(i'&j&Hi'&?&?)]; [by left; left|].
      apply elem_of_cons in Hi' as [->|?]; [left; right; eauto|right; eauto 6].
Qed.

(** The loops flag exactly the ids of the pairs [i < j] that intersect. *)
Lemma elem_of_findIntersectingOutletsWith r (l : list Outlet) x :
  x ∈ findIntersectingOutletsWith r l <->
  exists i j, (i < j)%nat /\ flaggedBy r l i j x.
Proof.
  unfold findIntersectingOutletsWith. rewrite elem_of_foldl_innerLoop. split.
  - intros [Hx|(i&j&_&?&?)]; [by apply not_elem_of_empty in Hx|].
    exists i, j. split; [lia|done].
  - intros (i&j&Hij&Hf). right. exists i, j.
    destruct Hf as (oi&oj&Hi&Hj&?&?).
    apply lookup_lt_Some in Hi as Hi'. apply lookup_lt_Some in Hj as Hj'.
    split; [apply elem_of_seq; lia|]. split; [lia|]. by exists oi, oj.
Qed.


(** * Properties of the flagged set *)

Lemma findIntersectingOutletsWith_short r (l : list Outlet) :
  (length l <= 1)%nat -> findIntersectingOutletsWith r l = ∅.
Proof.
  intros Hlen. apply set_eq. intros x.
  rewrite elem_of_findIntersectingOutletsWith. split.
  - intros (i&j&Hij&oi&oj&Hi&Hj&_).
    apply lookup_lt_Some in Hj. lia.
  - intros Hx. by apply not_elem_of_empty in Hx.
Qed.

Lemma flagged_pair_elem_of r (l : list Outlet) i j a b :
  (i < j)%nat -> l !! i = Some a -> l !! j = Some b ->
  circlesIntersect r a b = true ->
  id a ∈ findIntersectingOutletsWith r l /\ id b ∈ findIntersectingOutletsWith r l.
Proof.
  intros Hij Hi Hj Hc.
  split; apply elem_of_findIntersectingOutletsWith; exists i, j;
    (split; [done|]); exists a, b; auto.
Qed.

Lemma findIntersectingOutletsWith_pair r (a b : Outlet) :
  findIntersectingOutletsWith r [a; b] =
  if circlesIntersect r a b then {[ id a; id b ]} else ∅.
Proof.
  apply set_eq. intros x. rewrite elem_of_findIntersectingOutletsWith. split.
  - intros (i&j&Hij&oi&oj&Hi&Hj&Hc&Hx).
    destruct i as [|[|i]], j as [|[|j]]; try lia; simplify_eq/=.
    rewrite Hc. set_solver.
  - destruct (circlesIntersect r a b) eqn:Hc; [|set_solver].
    intros Hx. exists 0%nat, 1%nat. split; [lia|]. exists a, b. set_solver.
Qed.

(** C9: every flagged id is the id of an outlet of the input list. *)
Theorem flagged_ids_come_from_input r (l : list Outlet) (x : Z) :
  x ∈ findIntersectingOutletsWith r l -> exists o, o ∈ l /\ id o = x.
Proof.
  rewrite elem_of_findIntersectingOutletsWith.
  intros (i&j&_&oi&oj&Hi&Hj&_&[->| ->]).
  - exists oi. split; [by eapply list_elem_of_lookup_2|done].
  - exists oj. split; [by eapply list_elem_of_lookup_2|done].
Qed.

(** C10: with pairwise distinct ids the flagged set never has exactly one
    element, since the two ids of a pair are added together. *)
Theorem flagged_set_never_singleton r (l : list Outlet) :
  NoDup (id <$> l) -> size (findIntersectingOutletsWith r l) <> 1%nat.
Proof.
  intros Hnd Hsize. apply size_1_elem_of in Hsize as [x Hx].
  assert (x ∈ findIntersectingOutletsWith r l) as Hin by (rewrite Hx; set_solver).
  apply elem_of_findIntersectingOutletsWith in Hin as (i&j&Hij&oi&oj&Hi&Hj&Hc&_).
  destruct (flagged_pair_elem_of r l i j oi oj Hij Hi Hj Hc) as [Ha Hb].
  rewrite Hx in Ha, Hb. apply elem_of_singleton in Ha, Hb.
  assert (i = j) as Heq; [|lia].
  eapply NoDup_lookup; [exact Hnd| |]; rewrite list_lookup_fmap.
  - by rewrite Hi.
  - rewrite Hj. cbn. congruence.
Qed.

(** C4: when at most one outlet passes the filter, the effect stores the
    empty set; so does it for an empty input, which takes the other
    branch.  The loops themselves return the empty set on every list of
    at most one outlet. *)
Theorem no_overlap_below_two_outlets (l : list Outlet) (st : MapState) :
  (length (filter (fun o => validOutlet o = true) l) <= 1)%nat ->
  intersectingOutlets (onOutletsChange l st) = ∅ /\
  findIntersectingOutlets (filter (fun o => validOutlet o = true) l) = ∅.
Proof.
  intros Hlen.
  assert (findIntersectingOutlets (filter (fun o => validOutlet o = true) l) = ∅)
    as Hfind by (by apply findIntersectingOutletsWith_short).
  split; [|done]. unfold onOutletsChange.
  by destruct (0 <? length l)%nat.
Qed.

(** C6: a larger radius flags at least the same ids. *)
Theorem flagged_set_monotone_in_radius (r1 r2 : float) (l : list Outlet) :
  (r1 <=? r2)%float = true ->
  findIntersectingOutletsWith r1 l ⊆ findIntersectingOutletsWith r2 l.
Proof.
  intros Hr x. rewrite !elem_of_findIntersectingOutletsWith.
  intros (i&j&Hij&oi&oj&Hi&Hj&Hc&Hx). exists i, j. split; [done|].
  exists oi, oj. repeat split; try done.
  eapply float_ltb_double_mono; [exact Hc|exact Hr].
Qed.

Lemma circlesIntersect_same r (a a' b b' : Outlet) :
  sameIdAndCoordinates a a' -> sameIdAndCoordinates b b' ->
  circlesIntersect r a b = circlesIntersect r a' b'.
Proof.
  intros (_&Hlat&Hlon) (_&Hlat'&Hlon').
  unfold circlesIntersect, centerDistance.
  by rewrite Hlat, Hlon, Hlat', Hlon'.
Qed.

Lemma sameIdAndCoordinates_sym (a b : Outlet) :
  sameIdAndCoordinates a b -> sameIdAndCoordinates b a.
Proof. intros (?&?&?). by repeat split. Qed.

Lemma sameIdAndCoordinates_valid (a b : Outlet) :
  sameIdAndCoordinates a b -> validOutlet a = true <-> validOutlet b = true.
Proof. intros (_&Hlat&Hlon). unfold validOutlet. by rewrite Hlat, Hlon. Qed.

Lemma findIntersectingOutletsWith_same_subseteq r (l l' : list Outlet) :
  Forall2 sameIdAndCoordinates l l' ->
  findIntersectingOutletsWith r l ⊆ findIntersectingOutletsWith r l'.
Proof.
  intros Hll x. rewrite !elem_of_findIntersectingOutletsWith.
  intros (i&j&Hij&oi&oj&Hi&Hj&Hc&Hx). exists i, j. split; [done|].
  destruct (Forall2_lookup_l _ _ _ _ _ Hll Hi) as (oi'&Hi'&Hsi).
  destruct (Forall2_lookup_l _ _ _ _ _ Hll Hj) as (oj'&Hj'&Hsj).
  exists oi', oj'. repeat split; try done.
  - by rewrite <- (circlesIntersect_same r oi oi' oj oj').
  - destruct Hsi as (<-&_), Hsj as (<-&_). done.
Qed.

Lemma findIntersectingOutletsWith_same r (l l' : list Outlet) :
  Forall2 sameIdAndCoordinates l l' ->
  findIntersectingOutletsWith r l = findIntersectingOutletsWith r l'.
Proof.
  intros Hll. apply set_eq_subseteq.
  split; apply findIntersectingOutletsWith_same_subseteq; [done|].
  apply Forall2_flip. eapply Forall2_impl; [exact Hll|].
  intros a b. apply sameIdAndCoordinates_sym.
Qed.

(** C8: the flagged set reads the id, the latitude and the longitude of
    each outlet and nothing else, in the loops and through the filter. *)
Theorem overlap_ignores_descriptive_fields r (l l' : list Outlet)
    (st st' : MapState) :
  Forall2 sameIdAndCoordinates l l' ->
  findIntersectingOutletsWith r l = findIntersectingOutletsWith r l' /\
  intersectingOutlets (onOutletsChange l st) =
  intersectingOutlets (onOutletsChange l' st').
Proof.
  intros Hll. split; [by apply findIntersectingOutletsWith_same|].
  unfold onOutletsChange. rewrite <- (Forall2_length _ _ _ Hll).
  destruct (0 <? length l)%nat; [|done]. cbn [intersectingOutlets].
  apply findIntersectingOutletsWith_same.
  apply Forall2_filter; [|done]. apply sameIdAndCoordinates_valid.
Qed.


(** * The filter of the effect *)

(** What passes the filter: both coordinates are numbers other than zero
    and [NaN]. *)
Lemma validOutlet_spec (o : Outlet) :
  validOutlet o = true <->
  exists x y,
    latitude o = JsNumber x /\ longitude o = JsNumber y /\
    PrimFloat.is_zero x = false /\ PrimFloat.is_nan x = false /\
    PrimFloat.is_zero y = false /\ PrimFloat.is_nan y = false.
Proof.
  unfold validOutlet, isNaN. split.
  - destruct (latitude o) as [| |x]; [discriminate..|].
    destruct (longitude o) as [| |y]; cbn [ToBoolean ToNumber];
      rewrite ?andb_false_r; [discriminate..|].
    intros Hv. exists x, y.
    destruct (PrimFloat.is_zero x), (PrimFloat.is_nan x),
      (PrimFloat.is_zero y), (PrimFloat.is_nan y); done.
  - intros (x&y&->&->&Hzx&Hnx&Hzy&Hny). cbn [ToBoolean ToNumber].
    by rewrite Hzx, Hnx, Hzy, Hny.
Qed.

Lemma intersectingOutlets_onOutletsChange (l : list Outlet) (st : MapState) :
  intersectingOutlets (onOutletsChange l st) =
  findIntersectingOutlets (filter (fun o => validOutlet o = true) l).
Proof.
  unfold onOutletsChange. destruct l as [|o l]; [reflexivity|done].
Qed.

(** A record the filter drops leaves the flagged set as it is without the
    record. *)
Lemma dropped_outlet_has_no_effect (l1 l2 : list Outlet) (o : Outlet)
    (st st' : MapState) :
  validOutlet o = false ->
  intersectingOutlets (onOutletsChange (l1 ++ o :: l2) st) =
  intersectingOutlets (onOutletsChange (l1 ++ l2) st').
Proof.
  intros Ho. rewrite !intersectingOutlets_onOutletsChange.
  rewrite !filter_app, filter_cons_False; [done|]. by rewrite Ho.
Qed.

(** C3: the filter tests the coordinates for truthiness, so an outlet on
    the equator (latitude 0, finite and in range) is dropped with its
    neighbour, and the pair is never examined; an infinite latitude, which
    is truthy and not [NaN], passes. *)
Theorem zero_coordinate_outlet_dropped (st : MapState) :
  specEligible outletEquator = true /\
  validOutlet outletEquator = false /\
  outlets (onOutletsChange [outletEquator; outletEquatorNeighbour] st) = [] /\
  intersectingOutlets
    (onOutletsChange [outletEquator; outletEquatorNeighbour] st) = ∅ /\
  specEligible outletInfinite = false /\
  validOutlet outletInfinite = true.
Proof. repeat split; reflexivity. Qed.

(** * The state the effect leaves and what is drawn from it *)

Lemma outlets_onOutletsChange (l : list Outlet) (st : MapState) :
  outlets (onOutletsChange l st) = filter (fun o => validOutlet o = true) l.
Proof. unfold onOutletsChange. by destruct l. Qed.

Lemma mapCenter_onOutletsChange (l : list Outlet) (st : MapState) :
  mapCenter (onOutletsChange l st) =
  match filter (fun o => validOutlet o = true) l with
  | first :: _ => (latitude first, longitude first)
  | [] => mapCenter st
  end.
Proof. unfold onOutletsChange. by destruct l. Qed.

(** X1: once the effect has run, the stored outlets are outlets of the
    input in their order, and each of them has two coordinates that are
    numbers other than zero and [NaN]. *)
Theorem stored_outlets_are_usable (l : list Outlet) (st : MapState) :
  outlets (onOutletsChange l st) `sublist_of` l /\
  Forall (fun o =>
            exists x y,
              latitude o = JsNumber x /\ longitude o = JsNumber y /\
              PrimFloat.is_zero x = false /\ PrimFloat.is_nan x = false /\
              PrimFloat.is_zero y = false /\ PrimFloat.is_nan y = false)
         (outlets (onOutletsChange l st)).
Proof.
  rewrite outlets_onOutletsChange. split; [apply sublist_filter|].
  apply Forall_forall. intros o Ho.
  apply list_elem_of_filter in Ho as [Hv _]. by apply validOutlet_spec.
Qed.

(** X2: the effect is idempotent: run again on the outlets it stored, it
    leaves the whole state as it is. *)
Theorem onOutletsChange_idempotent (l : list Outlet) (st : MapState) :
  onOutletsChange (outlets (onOutletsChange l st)) (onOutletsChange l st) =
  onOutletsChange l st.
Proof.
  set (s := onOutletsChange l st).
  assert (filter (fun o => validOutlet o = true) (outlets s) = outlets s) as Hid.
  { unfold s. rewrite outlets_onOutletsChange.
    by apply list_filter_filter_r. }
  assert (intersectingOutlets s = findIntersectingOutlets (outlets s)) as Hset.
  { unfold s. by rewrite intersectingOutlets_onOutletsChange, outlets_onOutletsChange. }
  assert (mapCenter s =
          match outlets s with
          | first :: _ => (latitude first, longitude first)
          | [] => mapCenter s
          end) as Hcenter.
  { unfold s at 1 2. rewrite mapCenter_onOutletsChange, outlets_onOutletsChange.
    destruct (filter _ l) eqn:E; [|done]. unfold s.
    by rewrite mapCenter_onOutletsChange, E. }
  destruct s as [vs c S]. cbn in *. unfold onOutletsChange.
  destruct vs as [|o vs].
  - cbn. f_equal. rewrite Hset. reflexivity.
  - cbn [length Nat.ltb Nat.leb]. rewrite Hid. f_equal; done.
Qed.

(** Every flagged id is the id of a stored outlet. *)
Lemma intersectingOutlets_subseteq_ids (l : list Outlet) (st : MapState) :
  intersectingOutlets (onOutletsChange l st) ⊆
  list_to_set (id <$> outlets (onOutletsChange l st)).
Proof.
  rewrite intersectingOutlets_onOutletsChange, outlets_onOutletsChange.
  intros x Hx. apply elem_of_findIntersectingOutletsWith in Hx
    as (i&j&_&oi&oj&Hi&Hj&_&[->| ->]);
    apply elem_of_list_to_set, list_elem_of_fmap; eexists; split; try done;
    by eapply list_elem_of_lookup_2.
Qed.

Lemma size_list_to_set_le (l : list Z) :
  (size (list_to_set l : gset Z) <= length l)%nat.
Proof.
  induction l as [|x l IH]; [by rewrite list_to_set_nil, size_empty|].
  rewrite list_to_set_cons, size_union_alt, size_singleton. cbn [length].
  assert (size (list_to_set l ∖ {[x]} : gset Z) <= size (list_to_set l : gset Z))%nat
    by (apply subseteq_size; set_solver).
  lia.
Qed.

(** X3: the number of flagged ids never exceeds the number of stored
    outlets, so the legend never counts more overlaps than the badge
    counts outlets. *)
Theorem overlap_count_at_most_outlet_count (l : list Outlet) (st : MapState) :
  intersectingOutlets (onOutletsChange l st) ⊆
    list_to_set (id <$> outlets (onOutletsChange l st)) /\
  (size (intersectingOutlets (onOutletsChange l st)) <=
   length (outlets (onOutletsChange l st)))%nat.
Proof.
  split; [apply intersectingOutlets_subseteq_ids|].
  etrans; [apply subseteq_size, intersectingOutlets_subseteq_ids|].
  etrans; [apply size_list_to_set_le|]. by rewrite length_fmap.
Qed.

(** X4: the map is centred on the first outlet that passes the filter,
    however many dropped records come before it. *)
Theorem map_centred_on_first_usable_outlet (l1 l2 : list Outlet) (o : Outlet)
    (st : MapState) :
  Forall (fun d => validOutlet d = false) l1 ->
  validOutlet o = true ->
  mapCenter (onOutletsChange (l1 ++ o :: l2) st) = (latitude o, longitude o).
Proof.
  intros Hl1 Ho. rewrite mapCenter_onOutletsChange, filter_app.
  assert (filter (fun o => validOutlet o = true) l1 = []) as ->.
  { induction Hl1 as [|d l1 Hd _ IH]; [done|].
    rewrite filter_cons_False; [done|]. by rewrite Hd. }
  by rewrite filter_cons_True.
Qed.

(** X5: the component shows the "No outlets found" notice exactly when no
    record of the input passes the filter, and then leaves the centre of
    the map where it was. *)
Theorem notice_iff_no_usable_outlet (l : list Outlet) (st : MapState) :
  (render (onOutletsChange l st) = NoOutletsNotice <->
   Forall (fun o => validOutlet o = false) l) /\
  (render (onOutletsChange l st) = NoOutletsNotice ->
   mapCenter (onOutletsChange l st) = mapCenter st).
Proof.
  unfold render. rewrite outlets_onOutletsChange, mapCenter_onOutletsChange.
  destruct (filter _ l) as [|o vs] eqn:E; cbn [length Nat.eqb].
  - split; [|done]. split; [intros _|done].
    apply Forall_forall. intros o Ho.
    destruct (validOutlet o) eqn:Hv; [|done].
    assert (o ∈ filter (fun o => validOutlet o = true) l) as Hin
      by (by apply list_elem_of_filter).
    rewrite E in Hin. by apply elem_of_nil in Hin.
  - split; [|done]. split; [done|]. intros Hall.
    assert (o ∈ filter (fun o => validOutlet o = true) l) as Hin
      by (rewrite E; left).
    apply list_elem_of_filter in Hin as [Hv Hin].
    rewrite Forall_forall in Hall. specialize (Hall o Hin). congruence.
Qed.

Lemma redCircles_render (st : MapState) :
  length (redCircles (render st)) =
  length (filter (fun o => id o ∈ intersectingOutlets st) (outlets st)).
Proof.
  unfold render. destruct (outlets st) as [|o vs]; [done|].
  cbn [length Nat.eqb redCircles]. generalize (o :: vs). intros l.
  induction l as [|a l IH]; [done|].
  rewrite fmap_cons, !filter_cons.
  destruct (decide (id a ∈ intersectingOutlets st)) as [Hin|Hin].
  - assert (circleColor (renderCircle st a) = "#ef4444") as Hred.
    { unfold renderCircle, isIntersecting. cbn [circleColor].
      by rewrite bool_decide_eq_true_2. }
    rewrite decide_True by exact Hred. cbn [length]. by rewrite IH.
  - assert (circleColor (renderCircle st a) <> "#ef4444") as Hblue.
    { unfold renderCircle, isIntersecting. cbn [circleColor].
      by rewrite bool_decide_eq_false_2. }
    by rewrite decide_False by exact Hblue.
Qed.

(** X6: when the ids of the input are pairwise distinct, the number of
    red circles is the number the legend shows. *)
Theorem red_circles_match_legend (l : list Outlet) (st : MapState) :
  NoDup (id <$> l) ->
  length (redCircles (render (onOutletsChange l st))) =
  size (intersectingOutlets (onOutletsChange l st)).
Proof.
  intros Hnd. rewrite redCircles_render.
  set (s := onOutletsChange l st).
  set (red := filter (fun o => id o ∈ intersectingOutlets s) (outlets s)).
  assert (NoDup (id <$> red)) as Hred.
  { eapply sublist_NoDup; [exact Hnd|]. apply fmap_sublist.
    etrans; [apply sublist_filter|]. unfold s. rewrite outlets_onOutletsChange. apply sublist_filter. }
  rewrite <- (length_fmap id), <- (size_list_to_set (C := gset Z)) by done.
  f_equal. apply set_eq. intros x. rewrite elem_of_list_to_set, list_elem_of_fmap.
  split.
  - intros (o&->&Ho). by apply list_elem_of_filter in Ho as [? _].
  - intros Hx. apply intersectingOutlets_subseteq_ids in Hx as Hx'.
    apply elem_of_list_to_set, list_elem_of_fmap in Hx' as (o&->&Ho).
    exists o. split; [done|]. by apply list_elem_of_filter.
Qed.

(** X7: the hours line of a popup is never empty: a missing or empty
    value gets the default, every other value is shown as it is, and
    formatting twice changes nothing. *)
Theorem formatOperatingHours_never_empty (hours : option string) :
  formatOperatingHours hours <> "" /\
  (forall s, hours = Some s -> s <> "" -> formatOperatingHours hours = s) /\
  (truthyString hours = false -> formatOperatingHours hours = "8am - 12pm") /\
  formatOperatingHours (Some (formatOperatingHours hours)) =
  formatOperatingHours hours.
Proof.
  unfold formatOperatingHours, truthyString.
  destruct hours as [s|]; [|by repeat split].
  destruct (String.eqb_spec s "") as [->|Hne]; cbn.
  - repeat split; try done. intros s' [= <-] ?; done.
  - repeat split; try done.
    + by intros s' [= <-] _.
    + by destruct (String.eqb_spec s "").
Qed.

(** * The distance at the edges of binary64 *)

Section EdgeCoordinates.
Local Open Scope float_scope.

(** ECMAScript fixes these values of the host's functions: the sine of
    [NaN] is [NaN], the arctangent of [NaN] and anything is [NaN]. *)
Lemma calculateDistance_nan_l (lat1 lon1 lat2 lon2 : float) :
  sin64 nan = nan -> (forall x, atan2_64 nan x = nan) ->
  lat1 = nan \/ lon1 = nan ->
  calculateDistance (H := host) lat1 lon1 lat2 lon2 = nan /\
  calculateDistance (H := host) lat2 lon2 lat1 lon1 = nan.
Proof.
  intros Hsin Hatan Hnan. rewrite !calculateDistance_binary64. cbv zeta.
  assert (forall a, a = nan ->
            6371 * (2 * atan2_64 (PrimFloat.sqrt a) (PrimFloat.sqrt (1 - a))) = nan)
    as Hend.
  { intros a ->. change (PrimFloat.sqrt nan) with nan.
    by rewrite Hatan, !float_mul_nan_r. }
  assert (sin64 (nan * PI64 / 180 / 2) = nan) as Hhalf
    by (by rewrite float_mul_nan_l, !float_div_nan_l).
  destruct Hnan as [-> | ->]; split; apply Hend;
    rewrite ?float_sub_nan_l, ?float_sub_nan_r, Hhalf;
    by rewrite ?float_mul_nan_l, ?float_mul_nan_r,
               ?float_add_nan_l, ?float_add_nan_r.
Qed.

End EdgeCoordinates.

(** X8: a record whose latitude or longitude is [undefined] or [NaN]
    is never flagged by the loops, filter or no filter: its distance to
    anything is [NaN], and [NaN] is below no threshold.  (On a host whose
    sine and arctangent return [NaN] for [NaN], as ECMAScript requires.) *)
Theorem nan_coordinates_never_flagged (r : float) (l : list Outlet) (x : Z) :
  sin64 PrimFloat.nan = PrimFloat.nan ->
  (forall y, atan2_64 PrimFloat.nan y = PrimFloat.nan) ->
  (forall o, o ∈ l -> id o = x ->
     ToNumber (latitude o) = PrimFloat.nan \/
     ToNumber (longitude o) = PrimFloat.nan) ->
  x ∉ findIntersectingOutletsWith r l.
Proof.
  intros Hsin Hatan Hx Hin.
  apply elem_of_findIntersectingOutletsWith in Hin
    as (i&j&_&oi&oj&Hi&Hj&Hc&Hid).
  apply list_elem_of_lookup_2 in Hi, Hj.
  unfold circlesIntersect, centerDistance in Hc.
  destruct Hid as [-> | ->].
  - destruct (calculateDistance_nan_l _ _ (ToNumber (latitude oj))
                (ToNumber (longitude oj)) Hsin Hatan (Hx oi Hi eq_refl))
      as [E _].
    rewrite E, float_ltb_nan_l in Hc. discriminate.
  - destruct (calculateDistance_nan_l _ _ (ToNumber (latitude oi))
                (ToNumber (longitude oi)) Hsin Hatan (Hx oj Hj eq_refl))
      as [_ E].
    rewrite E, float_ltb_nan_l in Hc. discriminate.
Qed.

(** X9: two outlets at the same finite coordinates are at distance
    [+0] and are flagged together for every radius whose double is
    positive, on a host whose sine of [+0] is [+0] and whose arctangent of
    [+0] and 1 is [+0] (both fixed by ECMAScript) and whose cosine of the
    latitude has a finite square. *)
Theorem colocated_outlets_flagged (r : float) (a b : Outlet) (x y : float) :
  sin64 0%float = 0%float ->
  atan2_64 0%float 1%float = 0%float ->
  latitude a = JsNumber x -> longitude a = JsNumber y ->
  latitude b = JsNumber x -> longitude b = JsNumber y ->
  PrimFloat.is_finite x = true -> PrimFloat.is_finite y = true ->
  PrimFloat.is_finite
    (cos64 (x * PI64 / 180) * cos64 (x * PI64 / 180))%float = true ->
  (0 <? r * 2)%float = true ->
  centerDistance a b = 0%float /\
  findIntersectingOutletsWith r [a; b] = {[ id a; id b ]}.
Proof.
  intros Hsin Hatan Hlata Hlona Hlatb Hlonb Hx Hy Hcos Hr.
  assert (centerDistance a b = 0%float) as Hd.
  { unfold centerDistance. rewrite Hlata, Hlona, Hlatb, Hlonb. cbn [ToNumber].
    rewrite calculateDistance_binary64. cbv zeta.
    rewrite (float_sub_diag x Hx), (float_sub_diag y Hy).
    change (0 * PI64 / 180 / 2)%float with 0%float.
    rewrite Hsin, (float_square_mul_zero _ Hcos).
    change (0 * 0 + 0 * 0)%float with 0%float.
    change (PrimFloat.sqrt 0) with 0%float.
    change (PrimFloat.sqrt (1 - 0)) with 1%float.
    rewrite Hatan. reflexivity. }
  split; [exact Hd|].
  rewrite findIntersectingOutletsWith_pair. unfold circlesIntersect.
  by rewrite Hd, Hr.
Qed.

(** * Points almost opposite each other *)

(** X13: when rounding carries [h] above 1, [sqrt (1 - h)] is [NaN]; on
    a host whose arctangent answers [NaN] to a [NaN] argument, as
    ECMAScript prescribes, the distance is then [NaN], and the pair does
    not intersect at any radius. *)
Theorem distance_nan_when_h_above_one (a b : Outlet) :
  (forall y, atan2_64 y nan = nan) ->
  (1 <? haversineH a b)%float = true ->
  PrimFloat.is_nan (centerDistance a b) = true /\
  forall r, circlesIntersect r a b = false.
Proof.
  intros Hatan Hh.
  assert (centerDistance a b = nan) as Hd.
  { unfold centerDistance. rewrite calculateDistance_binary64. cbv zeta.
    unfold haversineH, haversineH64, radians64 in Hh. cbv zeta in Hh.
    rewrite (float_sqrt_one_minus _ Hh), Hatan.
    by rewrite !float_mul_nan_r. }
  split; [by rewrite Hd|].
  intros r. unfold circlesIntersect. rewrite Hd. apply float_ltb_nan_l.
Qed.

(** * Symmetry of the distance *)

(** From here on the statements speak of the distance between two outlets
    without saying which of them the loops reached first.  [Math.sin] is
    odd on the engines in use, which reduce the argument symmetrically;
    ECMAScript itself only asks for an approximation of the sine. *)
Hypothesis sin64_odd : forall x, sin64 (- x)%float = (- sin64 x)%float.

Section Symmetry.
Local Open Scope float_scope.

Lemma halfAngleSin_swap (k1 k2 k3 x y : float) :
  sin64 ((y - x) * k1 / k2 / k3) = sin64 ((x - y) * k1 / k2 / k3) \/
  sin64 ((y - x) * k1 / k2 / k3) = - sin64 ((x - y) * k1 / k2 / k3).
Proof.
  destruct (float_sub_swap x y) as [E|[E1 E2]].
  - right. rewrite E, float_mul_opp_l, !float_div_opp_l. apply sin64_odd.
  - left. by rewrite E1, E2.
Qed.

Lemma float_square_swap (p s s' : float) :
  s' = s \/ s' = - s -> (s' * s' = s * s) /\ (p * s' * s' = p * s * s).
Proof.
  intros [->| ->]; [done|]. split; [apply float_mul_opp_opp|].
  rewrite (float_mul_comm p (- s)), float_mul_opp_l, float_mul_opp_opp.
  by rewrite (float_mul_comm s p).
Qed.

(** The distance does not depend on which point comes first. *)
Lemma calculateDistance_sym (lat1 lon1 lat2 lon2 : float) :
  calculateDistance (H := host) lat2 lon2 lat1 lon1 =
  calculateDistance (H := host) lat1 lon1 lat2 lon2.
Proof.
  unfold calculateDistance.
  cbn [host binary64 lit n_add n_sub n_mul n_div
       Math_PI Math_sin Math_cos Math_sqrt Math_atan2].
  destruct (float_square_swap 1 _ _
    (halfAngleSin_swap PI64 (float_of_Z 180) (float_of_Z 2) lat2 lat1)) as [-> _].
  rewrite (float_mul_comm (cos64 (lat2 * _ / _))).
  destruct (float_square_swap
    (cos64 (lat1 * PI64 / float_of_Z 180) * cos64 (lat2 * PI64 / float_of_Z 180)) _ _
    (halfAngleSin_swap PI64 (float_of_Z 180) (float_of_Z 2) lon2 lon1)) as [_ ->].
  reflexivity.
Qed.

Lemma centerDistance_sym (a b : Outlet) :
  centerDistance b a = centerDistance a b.
Proof. unfold centerDistance. apply calculateDistance_sym. Qed.

Lemma circlesIntersect_sym r (a b : Outlet) :
  circlesIntersect r b a = circlesIntersect r a b.
Proof. unfold circlesIntersect. by rewrite centerDistance_sym. Qed.


End Symmetry.

(** * Properties of the flagged set that rest on the symmetry *)

Lemma elem_of_findIntersectingOutletsWith_sym r (l : list Outlet) (x : Z) :
  x ∈ findIntersectingOutletsWith r l <->
  exists i j a b,
    i <> j /\ l !! i = Some a /\ l !! j = Some b /\ id a = x /\
    circlesIntersect r a b = true.
Proof.
  rewrite elem_of_findIntersectingOutletsWith. split.
  - intros (i&j&Hij&oi&oj&Hi&Hj&Hc&[->| ->]).
    + exists i, j, oi, oj. repeat split; try done. lia.
    + exists j, i, oj, oi. repeat split; try done; [lia|].
      by rewrite circlesIntersect_sym.
  - intros (i&j&a&b&Hij&Hi&Hj&<-&Hc).
    destruct (decide (i < j)%nat).
    + exists i, j. split; [done|]. exists a, b. auto.
    + exists j, i. split; [lia|]. exists b, a. repeat split; try done; [|auto].
      by rewrite circlesIntersect_sym.
Qed.


(** C7: two outlets of the list that are closer than the threshold are
    flagged together. *)
Theorem overlapping_pair_flagged_together r (l : list Outlet) i j (a b : Outlet) :
  i <> j -> l !! i = Some a -> l !! j = Some b ->
  circlesIntersect r a b = true ->
  (id a ∈ findIntersectingOutletsWith r l <->
   id b ∈ findIntersectingOutletsWith r l) /\
  id a ∈ findIntersectingOutletsWith r l /\
  id b ∈ findIntersectingOutletsWith r l.
Proof.
  intros Hij Hi Hj Hc.
  assert (id a ∈ findIntersectingOutletsWith r l /\
          id b ∈ findIntersectingOutletsWith r l) as [Ha Hb]; [|done].
  split; apply elem_of_findIntersectingOutletsWith_sym.
  - exists i, j, a, b. auto.
  - exists j, i, b, a. rewrite circlesIntersect_sym. auto.
Qed.

Lemma findIntersectingOutletsWith_perm_subseteq r (l l' : list Outlet) :
  l ≡ₚ l' -> findIntersectingOutletsWith r l ⊆ findIntersectingOutletsWith r l'.
Proof.
  intros Hperm x. rewrite !elem_of_findIntersectingOutletsWith_sym.
  apply Permutation_inj in Hperm as (_&f&Hf&Hlook).
  intros (i&j&a&b&Hij&Hi&Hj&Hx&Hc).
  exists (f i), (f j), a, b. rewrite <- !Hlook. repeat split; try done.
  intros Heq. by apply Hf in Heq.
Qed.

(** C5: the flagged set does not depend on the order of the list. *)
Theorem flagged_set_order_independent r (l l' : list Outlet) (st st' : MapState) :
  l ≡ₚ l' ->
  findIntersectingOutletsWith r l = findIntersectingOutletsWith r l' /\
  intersectingOutlets (onOutletsChange l st) =
  intersectingOutlets (onOutletsChange l' st').
Proof.
  intros Hperm.
  assert (forall k k' : list Outlet, k ≡ₚ k' ->
    findIntersectingOutletsWith r k = findIntersectingOutletsWith r k') as Hfind.
  { intros k k' Hk. apply set_eq_subseteq.
    split; by apply findIntersectingOutletsWith_perm_subseteq. }
  split; [by apply Hfind|].
  unfold onOutletsChange. rewrite <- (Permutation_length Hperm).
  destruct (0 <? length l)%nat; [|done]. cbn [intersectingOutlets].
  unfold findIntersectingOutlets.
  apply set_eq_subseteq.
  split; apply findIntersectingOutletsWith_perm_subseteq; by rewrite Hperm.
Qed.


(** * What the symmetry gives the map *)

(** X10: the distance between the centres of two outlets is the same bit
    for bit whichever outlet comes first, and so is the test of line 44. *)
Theorem centerDistance_symmetric (r : float) (a b : Outlet) :
  centerDistance b a = centerDistance a b /\
  circlesIntersect r b a = circlesIntersect r a b.
Proof. split; [apply centerDistance_sym|apply circlesIntersect_sym]. Qed.

Lemma isIntersecting_red (st : MapState) (o : Outlet) :
  circleColor (renderCircle st o) = "#ef4444" <-> id o ∈ intersectingOutlets st.
Proof.
  unfold renderCircle, isIntersecting. cbn [circleColor].
  destruct (decide (id o ∈ intersectingOutlets st)).
  - by rewrite bool_decide_eq_true_2.
  - by rewrite bool_decide_eq_false_2.
Qed.

(** X11: with pairwise distinct ids, the circle of a stored outlet is red,
    and its popup carries the overlap badge, exactly when another stored
    outlet is less than 10 km away. *)
Theorem red_iff_neighbour_within_reach (l : list Outlet) (st : MapState)
    (i : nat) (o : Outlet) :
  NoDup (id <$> l) ->
  outlets (onOutletsChange l st) !! i = Some o ->
  (circleColor (renderCircle (onOutletsChange l st) o) = "#ef4444" <->
   exists j o', j <> i /\ outlets (onOutletsChange l st) !! j = Some o' /\
                (centerDistance o o' <? 5 * 2)%float = true) /\
  (popupOverlapBadge (markerPopup (renderMarker (onOutletsChange l st) o)) = true <->
   circleColor (renderCircle (onOutletsChange l st) o) = "#ef4444").
Proof.
  intros Hnd Hi. split.
  - rewrite isIntersecting_red, intersectingOutlets_onOutletsChange.
    rewrite outlets_onOutletsChange in *.
    set (vs := filter (fun o => validOutlet o = true) l) in *.
    assert (NoDup (id <$> vs)) as Hvs.
    { eapply sublist_NoDup; [exact Hnd|]. apply fmap_sublist, sublist_filter. }
    unfold findIntersectingOutlets.
    rewrite elem_of_findIntersectingOutletsWith_sym. split.
    + intros (i'&j&a&b&Hij&Ha&Hb&Hid&Hc).
      assert (i' = i) as ->.
      { eapply NoDup_lookup; [exact Hvs| |]; rewrite list_lookup_fmap.
        - by rewrite Ha.
        - rewrite Hi. cbn. by rewrite Hid. }
      assert (a = o) as -> by congruence.
      exists j, b. repeat split; solve [done|congruence].
    + intros (j&o'&Hj&Ho'&Hc). exists i, j, o, o'.
      repeat split; solve [done|congruence].
  - rewrite isIntersecting_red. unfold renderMarker, isIntersecting.
    cbn [markerPopup popupOverlapBadge]. apply bool_decide_eq_true.
Qed.

Lemma findIntersectingOutletsWith_app_l r (l k : list Outlet) :
  findIntersectingOutletsWith r l ⊆ findIntersectingOutletsWith r (l ++ k).
Proof.
  intros x. rewrite !elem_of_findIntersectingOutletsWith.
  intros (i&j&Hij&oi&oj&Hi&Hj&Hc&Hx). exists i, j. split; [done|].
  exists oi, oj. repeat split; try done; by apply lookup_app_l_Some.
Qed.

(** X12: flags are monotone in the list: every id flagged among some of
    the outlets is still flagged among all of them, in whatever order the
    larger list holds them; taking outlets away never adds a flag. *)
Theorem flags_monotone_in_outlets (r : float) (l k : list Outlet) :
  l ⊆+ k ->
  findIntersectingOutletsWith r l ⊆ findIntersectingOutletsWith r k.
Proof.
  intros Hsub. apply submseteq_Permutation in Hsub as [extra Hperm].
  etrans; [apply (findIntersectingOutletsWith_app_l r l extra)|].
  by apply findIntersectingOutletsWith_perm_subseteq.
Qed.

End OutletMap.

(** * The great-circle distance between the points (8, -90) and (-8, 90) *)

Section GreatCircle.
Local Open Scope R_scope.

(** The two points are opposite each other: [h] is 1 and the formula of
    the specification gives half the circumference. *)
Lemma haversine_atan2_antipodal : haversine_atan2 8 (-90) (-8) 90 = 6371 * PI.
Proof.
  unfold haversine_atan2.
  assert (haversine_h 8 (-90) (-8) 90 = 1) as ->.
  { unfold haversine_h, radians. cbv zeta.
    replace ((-8 * PI / 180 - 8 * PI / 180) / 2) with (- (8 * PI / 180)) by lra.
    replace ((90 * PI / 180 - -90 * PI / 180) / 2) with (PI / 2) by lra.
    replace (-8 * PI / 180) with (- (8 * PI / 180)) by lra.
    rewrite sin_neg, cos_neg, sin_PI2, <- Rsqr_neg.
    pose proof (sin2_cos2 (8 * PI / 180)) as Hone. unfold Rsqr in *. lra. }
  replace (1 - 1) with 0 by lra. rewrite sqrt_0, sqrt_1. unfold atan2R.
  destruct (Rlt_dec 0 0); [lra|]. destruct (Rlt_dec 0 1); lra.
Qed.

End GreatCircle.

(** * Closed instances *)

Section SmallAngleHost.
Local Open Scope float_scope.

Lemma smallAngleSin_odd (x : float) : smallAngleSin (- x) = - smallAngleSin x.
Proof.
  unfold smallAngleSin. by rewrite float_mul_opp_opp, float_mul_opp_l.
Qed.

End SmallAngleHost.

Section ClosedInstances.
Local Open Scope float_scope.

#[local] Abbreviation find5 :=
  (findIntersectingOutletsWith smallAngleSin smallAngleCos smallAngleAtan2 5).
#[local] Abbreviation effect :=
  (onOutletsChange smallAngleSin smallAngleCos smallAngleAtan2).
#[local] Abbreviation distance :=
  (centerDistance smallAngleSin smallAngleCos smallAngleAtan2).

(** Scenario 1: identical coordinates, distance 0, both flagged. *)
Example scenario_same_place : find5 [outletA; outletATwin] = {[ 1%Z; 8%Z ]}.
Proof. vm_compute. reflexivity. Qed.

(** Scenario 3: about 1.4 km apart, both flagged. *)
Example scenario_close_pair : find5 [outletA; outletC] = {[ 1%Z; 3%Z ]}.
Proof. vm_compute. reflexivity. Qed.

(** Scenario 2: a little over 10 km apart, none flagged. *)
Example scenario_distant_pair : find5 [outletA; outletB] = ∅.
Proof. vm_compute. reflexivity. Qed.

(** Scenario 4: A-C and C-B intersect, A-B do not; all three are flagged. *)
Example scenario_chain :
  find5 [outletA; outletB; outletC] = {[ 1%Z; 2%Z; 3%Z ]}.
Proof. vm_compute. reflexivity. Qed.

(** Scenario 6: the record without latitude is dropped, the rest is
    analysed. *)
Example scenario_missing_latitude :
  intersectingOutlets (effect [outletA; outletNoLatitude; outletC] initialState) =
  {[ 1%Z; 3%Z ]}.
Proof. vm_compute. reflexivity. Qed.

(** The two outlets on the equator are well within reach of each other,
    yet the effect never hands them to the loops. *)
Example equator_pair_lost :
  find5 [outletEquator; outletEquatorNeighbour] = {[ 5%Z; 6%Z ]} /\
  intersectingOutlets
    (effect [outletEquator; outletEquatorNeighbour] initialState) = ∅.
Proof. split; vm_compute; reflexivity. Qed.


(** Between the points (8, -90) and (-8, 90) the computed distance is
    not the great-circle distance: with correctly rounded sines and
    cosines [h] comes out one unit in the last place above 1,
    [sqrt (1 - h)] is [NaN], and so is the distance, where the formula of
    the specification names half the circumference, [6371 * PI] km. *)
Lemma near_antipodal_distance_is_nan :
  haversineH64 nearAntipodalSin nearAntipodalCos 8 (-90) (-8) 90 =
    0x1.0000000000001p+0 /\
  PrimFloat.is_nan
    (centerDistance nearAntipodalSin nearAntipodalCos smallAngleAtan2
       outletNorthWest outletSouthEast) = true /\
  validOutlet outletNorthWest = true /\ validOutlet outletSouthEast = true /\
  haversine_atan2 8 (-90) (-8) 90 = (6371 * PI)%R.
Proof.
  split; [vm_compute; reflexivity|].
  split; [vm_compute; reflexivity|].
  split; [reflexivity|]. split; [reflexivity|].
  exact haversine_atan2_antipodal.
Qed.

Lemma distance_nan_when_h_above_one_witness :
  (forall y, smallAngleAtan2 y nan = nan) /\
  (1 <? haversineH nearAntipodalSin nearAntipodalCos
          outletNorthWest outletSouthEast) = true /\
  PrimFloat.is_nan
    (centerDistance nearAntipodalSin nearAntipodalCos smallAngleAtan2
       outletNorthWest outletSouthEast) = true /\
  forall r,
    circlesIntersect nearAntipodalSin nearAntipodalCos smallAngleAtan2 r
      outletNorthWest outletSouthEast = false.
Proof.
  split; [exact float_div_nan_r|]. split; [reflexivity|].
  exact (distance_nan_when_h_above_one
           nearAntipodalSin nearAntipodalCos smallAngleAtan2
           outletNorthWest outletSouthEast float_div_nan_r eq_refl).
Defined.

Lemma no_overlap_below_two_outlets_witness :
  (length (filter (fun o => validOutlet o = true) [outletNoLatitude; outletA]) <= 1)%nat /\
  intersectingOutlets (effect [outletNoLatitude; outletA] initialState) = ∅ /\
  findIntersectingOutlets smallAngleSin smallAngleCos smallAngleAtan2
    (filter (fun o => validOutlet o = true) [outletNoLatitude; outletA]) = ∅.
Proof.
  assert (length (filter (fun o => validOutlet o = true)
                    [outletNoLatitude; outletA]) <= 1)%nat as Hlen
    by (vm_compute; lia).
  split; [exact Hlen|].
  exact (no_overlap_below_two_outlets smallAngleSin smallAngleCos smallAngleAtan2
           [outletNoLatitude; outletA] initialState Hlen).
Defined.

Lemma flagged_set_order_independent_witness :
  [outletA; outletB; outletC] ≡ₚ [outletC; outletA; outletB] /\
  find5 [outletA; outletB; outletC] = find5 [outletC; outletA; outletB] /\
  intersectingOutlets (effect [outletA; outletB; outletC] initialState) =
  intersectingOutlets (effect [outletC; outletA; outletB] initialState).
Proof.
  assert ([outletA; outletB; outletC] ≡ₚ [outletC; outletA; outletB]) as Hperm
    by exact (Permutation_app_comm [outletA; outletB] [outletC]).
  split; [exact Hperm|].
  exact (flagged_set_order_independent smallAngleSin smallAngleCos smallAngleAtan2
           smallAngleSin_odd 5 _ _ initialState initialState Hperm).
Defined.

Lemma flagged_set_monotone_in_radius_witness :
  (5 <=? 7.5) = true /\
  find5 [outletA; outletB; outletC] ⊆
  findIntersectingOutletsWith smallAngleSin smallAngleCos smallAngleAtan2 7.5
    [outletA; outletB; outletC].
Proof.
  split; [reflexivity|].
  apply (flagged_set_monotone_in_radius smallAngleSin smallAngleCos smallAngleAtan2
           5 7.5 [outletA; outletB; outletC]).
  reflexivity.
Defined.

Lemma overlapping_pair_flagged_together_witness :
  circlesIntersect smallAngleSin smallAngleCos smallAngleAtan2 5 outletC outletA = true /\
  (id outletC ∈ find5 [outletA; outletB; outletC] <->
   id outletA ∈ find5 [outletA; outletB; outletC]) /\
  id outletC ∈ find5 [outletA; outletB; outletC] /\
  id outletA ∈ find5 [outletA; outletB; outletC].
Proof.
  split; [reflexivity|].
  apply (overlapping_pair_flagged_together smallAngleSin smallAngleCos
           smallAngleAtan2 smallAngleSin_odd 5 [outletA; outletB; outletC]
           2 0 outletC outletA); [lia|reflexivity..].
Defined.

Lemma overlap_ignores_descriptive_fields_witness :
  Forall2 sameIdAndCoordinates [outletA; outletC] [outletARenamed; outletC] /\
  find5 [outletA; outletC] = find5 [outletARenamed; outletC] /\
  intersectingOutlets (effect [outletA; outletC] initialState) =
  intersectingOutlets (effect [outletARenamed; outletC] initialState).
Proof.
  assert (Forall2 sameIdAndCoordinates [outletA; outletC] [outletARenamed; outletC])
    as Hsame by (repeat constructor).
  split; [exact Hsame|].
  exact (overlap_ignores_descriptive_fields smallAngleSin smallAngleCos
           smallAngleAtan2 5 _ _ initialState initialState Hsame).
Defined.

Lemma flagged_ids_come_from_input_witness :
  3%Z ∈ find5 [outletA; outletB; outletC] /\
  exists o, o ∈ [outletA; outletB; outletC] /\ id o = 3%Z.
Proof.
  assert (3%Z ∈ find5 [outletA; outletB; outletC]) as Hin.
  { apply elem_of_findIntersectingOutletsWith. exists 0%nat, 2%nat.
    split; [lia|]. exists outletA, outletC. repeat split; auto. }
  split; [exact Hin|].
  exact (flagged_ids_come_from_input smallAngleSin smallAngleCos smallAngleAtan2
           5 [outletA; outletB; outletC] 3 Hin).
Defined.

Lemma flagged_set_never_singleton_witness :
  NoDup (id <$> [outletA; outletB; outletC]) /\
  size (find5 [outletA; outletB; outletC]) <> 1%nat.
Proof.
  assert (NoDup (id <$> [outletA; outletB; outletC])) as Hnd.
  { cbn. repeat constructor; set_solver. }
  split; [exact Hnd|].
  exact (flagged_set_never_singleton smallAngleSin smallAngleCos smallAngleAtan2
           5 [outletA; outletB; outletC] Hnd).
Defined.

(** What is drawn for the three outlets of scenario 4. *)
Example render_chain :
  render (effect [outletA; outletB; outletC] initialState) =
  OutletLayers (JsNumber 3.1390, JsNumber 101.6869)
    [mkCircleView (JsNumber 3.1390, JsNumber 101.6869) 5000
       "#ef4444" "#ef4444" 0.1 3 0.6;
     mkCircleView (JsNumber 3.2280, JsNumber 101.7080) 5000
       "#ef4444" "#ef4444" 0.1 3 0.6;
     mkCircleView (JsNumber 3.1480, JsNumber 101.6960) 5000
       "#ef4444" "#ef4444" 0.1 3 0.6]
    [mkMarkerView (JsNumber 3.1390, JsNumber 101.6869)
       (mkPopupView "Outlet A" true "Jalan Ampang" "8am - 12pm" None None);
     mkMarkerView (JsNumber 3.2280, JsNumber 101.7080)
       (mkPopupView "Outlet B" true "Jalan Genting Klang" "24 Hours" None None);
     mkMarkerView (JsNumber 3.1480, JsNumber 101.6960)
       (mkPopupView "Outlet C" true "Jalan Tun Razak" "8am - 12pm"
          (Some "03-0000 0000") None)]
    "3 outlets found" "3 outlets with overlaps".
Proof. vm_compute. reflexivity. Qed.

(** One valid outlet: a blue circle, singular in the badge, plural in the
    legend. *)
Example render_single :
  render (effect [outletNoLatitude; outletA] initialState) =
  OutletLayers (JsNumber 3.1390, JsNumber 101.6869)
    [mkCircleView (JsNumber 3.1390, JsNumber 101.6869) 5000
       "#3b82f6" "#3b82f6" 0.1 2 0.6]
    [mkMarkerView (JsNumber 3.1390, JsNumber 101.6869)
       (mkPopupView "Outlet A" false "Jalan Ampang" "8am - 12pm" None None)]
    "1 outlet found" "0 outlets with overlaps".
Proof. vm_compute. reflexivity. Qed.

(** With a repeated id the legend and the circles part ways: both circles
    of id 1 are red with the circle of id 3, and the set holds two ids. *)
Example repeated_id_red_circles :
  length (redCircles (render (effect [outletA; outletARenamed; outletB] initialState))) = 2%nat /\
  length (redCircles (render (effect [outletA; outletC; outletARenamed] initialState))) = 3%nat /\
  size (intersectingOutlets (effect [outletA; outletC; outletARenamed] initialState)) = 2%nat.
Proof. repeat split; vm_compute; reflexivity. Qed.

(** [null] is not [NaN]: it counts as latitude 0 in the arithmetic, so
    only the filter keeps such a record out. *)
(** The first render draws the prop as it came, the record without
    latitude included; the effect then drops it. *)
Example first_render_draws_the_prop :
  render (stateAtMount [outletNoLatitude]) =
    OutletLayers (JsNumber 3.1390, JsNumber 101.6869)
      [renderCircle (stateAtMount [outletNoLatitude]) outletNoLatitude]
      [renderMarker (stateAtMount [outletNoLatitude]) outletNoLatitude]
      "1 outlet found" "0 outlets with overlaps" /\
  render (effect [outletNoLatitude] (stateAtMount [outletNoLatitude])) =
    NoOutletsNotice.
Proof. split; vm_compute; reflexivity. Qed.

Example null_latitude_is_zero :
  ToNumber (latitude outletNoLatitude) = 0 /\
  validOutlet outletNoLatitude = false.
Proof. split; reflexivity. Qed.

Lemma map_centred_on_first_usable_outlet_witness :
  Forall (fun d => validOutlet d = false) [outletNoLatitude; outletEquator] /\
  validOutlet outletC = true /\
  mapCenter (effect ([outletNoLatitude; outletEquator] ++ outletC :: [outletA])
               initialState) =
  (latitude outletC, longitude outletC).
Proof.
  assert (Forall (fun d => validOutlet d = false)
            [outletNoLatitude; outletEquator]) as Hdropped
    by (repeat constructor).
  split; [exact Hdropped|]. split; [reflexivity|].
  exact (map_centred_on_first_usable_outlet smallAngleSin smallAngleCos
           smallAngleAtan2 _ [outletA] outletC initialState Hdropped eq_refl).
Defined.

Lemma red_circles_match_legend_witness :
  NoDup (id <$> [outletA; outletB; outletC; outletNoLatitude]) /\
  length (redCircles (render
            (effect [outletA; outletB; outletC; outletNoLatitude] initialState))) =
  size (intersectingOutlets
          (effect [outletA; outletB; outletC; outletNoLatitude] initialState)).
Proof.
  assert (NoDup (id <$> [outletA; outletB; outletC; outletNoLatitude])) as Hnd.
  { cbn. repeat constructor; set_solver. }
  split; [exact Hnd|].
  exact (red_circles_match_legend smallAngleSin smallAngleCos smallAngleAtan2
           _ initialState Hnd).
Defined.

Lemma centerDistance_symmetric_witness :
  distance outletB outletA = distance outletA outletB /\
  circlesIntersect smallAngleSin smallAngleCos smallAngleAtan2 5 outletB outletA =
  circlesIntersect smallAngleSin smallAngleCos smallAngleAtan2 5 outletA outletB.
Proof.
  exact (centerDistance_symmetric smallAngleSin smallAngleCos smallAngleAtan2
           smallAngleSin_odd 5 outletA outletB).
Defined.

Lemma red_iff_neighbour_within_reach_witness :
  NoDup (id <$> [outletNoLatitude; outletA; outletB]) /\
  outlets (effect [outletNoLatitude; outletA; outletB] initialState) !! 1%nat =
    Some outletB /\
  (circleColor
     (renderCircle (effect [outletNoLatitude; outletA; outletB] initialState)
        outletB) = "#ef4444" <->
   exists j o', j <> 1%nat /\
     outlets (effect [outletNoLatitude; outletA; outletB] initialState) !! j =
       Some o' /\
     (distance outletB o' <? 5 * 2) = true) /\
  (popupOverlapBadge
     (markerPopup
        (renderMarker (effect [outletNoLatitude; outletA; outletB] initialState)
           outletB)) = true <->
   circleColor
     (renderCircle (effect [outletNoLatitude; outletA; outletB] initialState)
        outletB) = "#ef4444").
Proof.
  assert (NoDup (id <$> [outletNoLatitude; outletA; outletB])) as Hnd.
  { cbn. repeat constructor; set_solver. }
  split; [exact Hnd|]. split; [reflexivity|].
  exact (red_iff_neighbour_within_reach smallAngleSin smallAngleCos
           smallAngleAtan2 smallAngleSin_odd _ initialState 1 outletB Hnd eq_refl).
Defined.

Lemma nan_coordinates_never_flagged_witness :
  smallAngleSin nan = nan /\
  9%Z ∉ find5 [outletA; outletUndefined; outletATwin].
Proof.
  split; [reflexivity|].
  apply (nan_coordinates_never_flagged smallAngleSin smallAngleCos
           smallAngleAtan2 5 [outletA; outletUndefined; outletATwin] 9).
  - reflexivity.
  - intros y. apply float_div_nan_l.
  - intros o Ho Hid.
    repeat (apply elem_of_cons in Ho as [->|Ho]; [try discriminate Hid|]).
    + by left.
    + by apply elem_of_nil in Ho.
Defined.

Lemma colocated_outlets_flagged_witness :
  PrimFloat.is_finite 3.1390 = true /\
  (0 <? 5 * 2) = true /\
  distance outletA outletATwin = 0 /\
  find5 [outletA; outletATwin] = {[ id outletA; id outletATwin ]}.
Proof.
  split; [reflexivity|]. split; [reflexivity|].
  apply (colocated_outlets_flagged smallAngleSin smallAngleCos smallAngleAtan2
           5 outletA outletATwin 3.1390 101.6869); reflexivity.
Defined.

Lemma flags_monotone_in_outlets_witness :
  [outletC; outletA] ⊆+ [outletA; outletB; outletC] /\
  find5 [outletC; outletA] ⊆ find5 [outletA; outletB; outletC].
Proof.
  assert ([outletC; outletA] ⊆+ [outletA; outletB; outletC]) as Hsub.
  { etrans; [apply submseteq_swap|].
    apply submseteq_skip, submseteq_cons. done. }
  split; [exact Hsub|].
  exact (flags_monotone_in_outlets smallAngleSin smallAngleCos smallAngleAtan2
           smallAngleSin_odd 5 _ _ Hsub).
Defined.

End ClosedInstances.

(** * The handlers of the page *)

Section PageHandlers.
Variable trim : string -> string.

(** Case analysis on everything the network and the user may answer. *)
Ltac handler_cases :=
  repeat match goal with
  | o : FetchOutcome |- _ => destruct o as [?|[] ? [?|?]]
  | b : bool |- _ => destruct b
  | |- context [String.eqb ?s ""] => destruct (String.eqb_spec s "")
  end.

(** X16: no handler lets an exception escape, and each one lowers the
    busy flag it raised, whatever the network answers; a handler that
    returns early leaves the flag alone. *)
Theorem handlers_release_busy_flags (st : PageState) (term : string)
    (confirmed : bool) (first second : FetchOutcome) :
  (snd (handleSearch trim term first second) = Normal tt /\
   isSearching (stateAfter st (handleSearch trim term first second)) =
   if String.eqb (trim term) "" then isSearching st else false) /\
  (snd (handleAISearch trim term first) = Normal tt /\
   isSearchingAI (stateAfter st (handleAISearch trim term first)) =
   if String.eqb (trim term) "" then isSearchingAI st else false) /\
  (snd (handleRescrape confirmed first) = Normal tt /\
   isRescraping (stateAfter st (handleRescrape confirmed first)) =
   if confirmed then false else isRescraping st) /\
  (snd (fetchOutlets first) = Normal tt /\
   isFetchingOutlets (stateAfter st (fetchOutlets first)) = false).
Proof.
  unfold handleSearch, handleAISearch, handleRescrape.
  repeat split; handler_cases; reflexivity.
Qed.

(** X17: a request leaves the page only when there is something to ask:
    a search term or a question that is not blank, a confirmed deletion. *)
Theorem no_request_without_input (term : string) (confirmed : bool)
    (first second : FetchOutcome) :
  existsb isFetch (fst (handleSearch trim term first second)) =
    negb (String.eqb (trim term) "") /\
  existsb isFetch (fst (handleAISearch trim term first)) =
    negb (String.eqb (trim term) "") /\
  existsb isFetch (fst (handleRescrape confirmed first)) = confirmed.
Proof.
  unfold handleSearch, handleAISearch, handleRescrape.
  repeat split; handler_cases; reflexivity.
Qed.

(** X18: [fetchOutlets] replaces the outlets only when the response is ok
    and its body parses; every other outcome keeps the outlets on screen
    and puts a message in [error].  A success does not clear an earlier
    error. *)
Theorem fetchOutlets_keeps_outlets_on_failure (st : PageState)
    (outcome : FetchOutcome) :
  match outcome with
  | FetchResolves true _ (JsonResolves data) =>
      pageOutlets (stateAfter st (fetchOutlets outcome)) = outletsKey data /\
      error (stateAfter st (fetchOutlets outcome)) = error st
  | _ =>
      pageOutlets (stateAfter st (fetchOutlets outcome)) = pageOutlets st /\
      exists message, error (stateAfter st (fetchOutlets outcome)) = Some message
  end.
Proof.
  destruct outcome as [m|[] status [m|body]]; cbn; eauto.
Qed.

(** X19: [handleRescrape] empties the list exactly when the deletion was
    confirmed, answered ok and its body parsed; otherwise the list stays. *)
Theorem rescrape_clears_only_on_success (st : PageState) (confirmed : bool)
    (outcome : FetchOutcome) :
  pageOutlets (stateAfter st (handleRescrape confirmed outcome)) =
  match confirmed, outcome with
  | true, FetchResolves true _ (JsonResolves _) => Some []
  | _, _ => pageOutlets st
  end.
Proof. destruct confirmed, outcome as [m|[] status [m|body]]; reflexivity. Qed.

(** X20: [handleSearch] always shows exactly one alert (the prompt for a
    term, the success notice or the error), [handleRescrape] shows one
    when confirmed and none when declined, [handleAISearch] only the
    prompt for a question, and [fetchOutlets] none: a failed refresh after
    an accepted scrape reaches the error banner without an alert. *)
Theorem alerts_per_handler (term : string) (confirmed : bool)
    (first second : FetchOutcome) :
  length (filter (fun e => isAlert e = true)
            (fst (handleSearch trim term first second))) = 1%nat /\
  length (filter (fun e => isAlert e = true)
            (fst (handleRescrape confirmed first))) =
    (if confirmed then 1 else 0)%nat /\
  length (filter (fun e => isAlert e = true)
            (fst (handleAISearch trim term first))) =
    (if String.eqb (trim term) "" then 1 else 0)%nat /\
  length (filter (fun e => isAlert e = true) (fst (fetchOutlets first))) = 0%nat.
Proof.
  unfold handleSearch, handleAISearch, handleRescrape.
  repeat split; handler_cases; reflexivity.
Qed.

(** X21: after an AI search with a question that is not blank, the page
    holds either the answer of the backend and no error, or an error and
    the empty answer: an old answer never stays next to a new error. *)
Theorem ai_search_answer_or_error (st : PageState) (query : string)
    (outcome : FetchOutcome) :
  String.eqb (trim query) "" = false ->
  match outcome with
  | FetchResolves true _ (JsonResolves result) =>
      aiResponse (stateAfter st (handleAISearch trim query outcome)) =
        responseKey result /\
      searchError (stateAfter st (handleAISearch trim query outcome)) = None
  | _ =>
      aiResponse (stateAfter st (handleAISearch trim query outcome)) = Some "" /\
      exists message,
        searchError (stateAfter st (handleAISearch trim query outcome)) =
        Some message
  end.
Proof.
  intros Hq. unfold handleAISearch. rewrite Hq.
  destruct outcome as [m|[] status [m|body]]; cbn; eauto.
Qed.

Lemma errorMessage_not_empty (errorData : JsonBody) (status : N) :
  errorMessage errorData status <> "".
Proof.
  unfold errorMessage, truthyString.
  destruct (detail errorData) as [d|]; [|done]. cbn.
  destruct (String.eqb_spec d ""); done.
Qed.

(** X22: when the backend answers a refresh with a failure status and a
    JSON body, the error on screen is the [detail] of the body if it has
    one that is not empty, the status line otherwise, and never empty. *)
Theorem http_failure_message (st : PageState) (status : N) (errorData : JsonBody) :
  exists message,
    error (stateAfter st
             (fetchOutlets (FetchResolves false status (JsonResolves errorData)))) =
      Some message /\
    message <> "" /\
    (forall d, detail errorData = Some d -> d <> "" -> message = d) /\
    (truthyString (detail errorData) = false ->
     message = "HTTP error! status: " +:+ pretty status).
Proof.
  exists (errorMessage errorData status). split; [reflexivity|].
  split; [apply errorMessage_not_empty|].
  unfold errorMessage, truthyString. split.
  - intros d -> Hd. cbn. by destruct (String.eqb_spec d "").
  - by intros ->.
Qed.

(** X23: [handleSearch] refreshes the outlets only after the backend
    accepted the scrape: the GET is sent exactly when the term is not
    blank and the POST was answered ok. *)
Theorem refresh_only_after_accepted_scrape (term : string)
    (scrape refresh : FetchOutcome) :
  Fetch {| requestMethod := "GET";
           requestUrl := "http://localhost:8000/outlets?per_page=1000";
           requestBody := None |}
    ∈ fst (handleSearch trim term scrape refresh) <->
  String.eqb (trim term) "" = false /\
  exists status json, scrape = FetchResolves true status json.
Proof.
  unfold handleSearch.
  destruct (String.eqb_spec (trim term) "") as [Hb|Hb].
  - split; [|by intros [? _]]. cbn. intros Hin.
    apply list_elem_of_singleton in Hin. discriminate.
  - destruct scrape as [m|[] status json].
    + split; [|by intros (_&?&?&?)]. cbn. intros Hin.
      repeat (apply elem_of_cons in Hin as [Hin|Hin]; [discriminate|]).
      by apply elem_of_nil in Hin.
    + split; [by eauto|]. intros _.
      destruct refresh as [?|[] ? [?|?]]; cbn; set_solver.
    + split; [|by intros (_&?&?&?)].
      destruct json; cbn; intros Hin;
        repeat (apply elem_of_cons in Hin as [Hin|Hin]; [discriminate|]);
        by apply elem_of_nil in Hin.
Qed.

End PageHandlers.

(** * Closed instances for the page *)

Section MoreClosedInstances.

(** An accepted scrape whose refresh fails: one alert, the error in the
    banner, both flags lowered. *)
Example scrape_then_failed_refresh :
  fst (handleSearch asciiTrim "Kuala Lumpur"
         (FetchResolves true 200 (JsonResolves (mkJsonBody None None None None)))
         (FetchRejects "Failed to fetch")) =
  [SetIsSearching true; SetError None;
   Fetch (mkRequest "POST" "http://localhost:8000/save-outlets"
            (Some (ScrapeBody "Kuala Lumpur" false)));
   Alert (Some ("Scraping process for " +:+ quote +:+ "Kuala Lumpur" +:+ quote
                +:+ " started successfully! The data will be updated shortly."));
   SetIsFetchingOutlets true;
   Fetch (mkRequest "GET" "http://localhost:8000/outlets?per_page=1000" None);
   SetError (Some "Failed to fetch");
   SetIsFetchingOutlets false;
   SetIsSearching false].
Proof. vm_compute. reflexivity. Qed.

(** A status without a usable [detail] is reported by its number. *)
Example status_line :
  error (stateAfter pageAtMount
           (fetchOutlets (FetchResolves false 503
              (JsonResolves (mkJsonBody (Some "") None None None))))) =
  Some "HTTP error! status: 503".
Proof. vm_compute. reflexivity. Qed.

Lemma ai_search_answer_or_error_witness :
  String.eqb (asciiTrim "  Which outlets open 24 hours? ") "" = false /\
  aiResponse (stateAfter pageAtMount
    (handleAISearch asciiTrim "  Which outlets open 24 hours? "
       (FetchRejects "Failed to fetch"))) = Some "" /\
  exists message,
    searchError (stateAfter pageAtMount
      (handleAISearch asciiTrim "  Which outlets open 24 hours? "
         (FetchRejects "Failed to fetch"))) = Some message.
Proof.
  split; [reflexivity|].
  exact (ai_search_answer_or_error asciiTrim pageAtMount
           "  Which outlets open 24 hours? " (FetchRejects "Failed to fetch")
           eq_refl).
Defined.

End MoreClosedInstances.
